(** * astromodels.functions.apec: APEC, VAPEC, PhAbs and TbAbs

    A shallow embedding of [src/astromodels/functions/apec.py].

    Numbers.  The program computes on numpy [float64] arrays.  The
    embedding idealises them as real numbers: an array is a [list R], and
    [+], [-], [*], [/] are the operations of the real field.  Rounding,
    overflow, infinities and NaN are outside the model; every statement
    below is a statement about the exact-arithmetic reading of the code,
    except in the module [float64], which repeats the bin-edge
    construction over binary64 numbers where rounding decides.

    Indices.  Python indices and slice bounds are integers that may be
    negative, so they are [Z] here and the wrap-around of negative indices
    and the clamping of slice bounds are written out.

    Effects.  A method runs in a small state-and-exception monad [M] over
    a [World]: the attributes of [self] and the chronological log of the
    calls that leave the module (pyatomdb session methods, [fits.open],
    [print]).  A pyatomdb session is an opaque object: what it returns is
    an uninterpreted function of the calls it has received so far. *)

From Stdlib Require Import Ascii String.
From Stdlib Require Import Reals ZArith List Sorted Bool Lia Lra.
From Stdlib Require Import PrimFloat.
Import ListNotations.

Open Scope R_scope.

(** ** Python values *)

Definition array := list R.

Inductive exn : Type :=
| IndexError
| ValueError
| KeyError
| AttributeError
| AssertionError
| TypeError
| OSError.

Inductive result (A : Type) : Type :=
| Ok (a : A)
| Err (e : exn).

Arguments Ok {A} a.
Arguments Err {A} e.

(** An attribute of a Python object: not there, bound to [None], or bound
    to a value. *)
Inductive attr (A : Type) : Type :=
| Absent
| PyNone
| Value (a : A).

Arguments Absent {A}.
Arguments PyNone {A}.
Arguments Value {A} a.

(** ** numpy on one-dimensional arrays *)

Module np.

Definition len {A : Type} (a : list A) : Z := Z.of_nat (length a).

(** [a[i]] for an integer [i]: negative indices count from the end. *)
Definition index (n i : Z) : option nat :=
  if (i <? - n)%Z then None
  else if (i <? 0)%Z then Some (Z.to_nat (i + n))
  else if (i <? n)%Z then Some (Z.to_nat i)
  else None.

Definition getitem (a : array) (i : Z) : result R :=
  match index (len a) i with
  | Some k => Ok (nth k a 0)
  | None => Err IndexError
  end.

Definition setitem (a : array) (i : Z) (v : R) : result array :=
  match index (len a) i with
  | Some k => Ok (firstn k a ++ v :: skipn (S k) a)
  | None => Err IndexError
  end.

(** A slice bound as [slice.indices] resolves it for step 1. *)
Definition bound (n : Z) (b : option Z) (default : Z) : Z :=
  match b with
  | None => default
  | Some i => if (i <? 0)%Z then Z.max (i + n) 0 else Z.min i n
  end.

(** First position and number of positions selected by [start:stop]. *)
Definition extent (n : Z) (start stop : option Z) : nat * nat :=
  let lo := bound n start 0 in
  let hi := bound n stop n in
  (Z.to_nat lo, Z.to_nat (hi - lo)).

(** [a[start:stop]] *)
Definition getslice (a : array) (start stop : option Z) : array :=
  let '(lo, cnt) := extent (len a) start stop in
  firstn cnt (skipn lo a).

(** [a[start:stop] = v]: [v] has the shape of the slice or one element. *)
Definition setslice (a : array) (start stop : option Z) (v : array)
  : result array :=
  let '(lo, cnt) := extent (len a) start stop in
  if Nat.eqb (length v) cnt
  then Ok (firstn lo a ++ v ++ skipn (lo + cnt) a)
  else if Nat.eqb (length v) 1
  then Ok (firstn lo a ++ repeat (hd 0 v) cnt ++ skipn (lo + cnt) a)
  else Err ValueError.

Fixpoint zip_with (f : R -> R -> R) (a b : array) : array :=
  match a, b with
  | u :: a', v :: b' => f u v :: zip_with f a' b'
  | _, _ => []
  end.

(** An elementwise binary operation with numpy's broadcasting. *)
Definition elementwise (f : R -> R -> R) (a b : array) : result array :=
  if Nat.eqb (length a) (length b) then Ok (zip_with f a b)
  else if Nat.eqb (length b) 1 then Ok (map (fun u => f u (hd 0 b)) a)
  else if Nat.eqb (length a) 1 then Ok (map (f (hd 0 a)) b)
  else Err ValueError.

Definition add := elementwise Rplus.
Definition sub := elementwise Rminus.
Definition div := elementwise Rdiv.

(** array-with-scalar arithmetic *)
Definition mul_scalar (a : array) (c : R) : array := map (fun v => v * c) a.
Definition div_scalar (a : array) (c : R) : array := map (fun v => v / c) a.
Definition scalar_mul (c : R) (a : array) : array := map (fun v => c * v) a.

(** [np.roll(a, shift)]: element [i] moves to [(i + shift) mod len]. *)
Definition roll (a : array) (shift : Z) : array :=
  if (len a =? 0)%Z then a
  else
    let k := Z.to_nat ((- shift) mod len a) in
    skipn k a ++ firstn k a.

(** [np.empty(n)]: [n] slots whose contents are whatever the allocator
    left there, given by [garbage]. *)
Definition empty (garbage : Z -> R) (n : Z) : array :=
  map (fun k => garbage (Z.of_nat k)) (seq 0 (Z.to_nat n)).

Definition exp (a : array) : array := map Rtrigo_def.exp a.

(** [np.interp(x, xp, fp)] is library code; this follows its documented
    behaviour for increasing [xp]: [fp[0]] to the left of the table,
    [fp[-1]] from its last point on, and on [xp[j] <= xi < xp[j+1]] the
    chord through the two neighbouring table points.  [locate] is the
    scan from a table point that [xi] is not to the left of. *)
Fixpoint locate (xi : R) (xp fp : array) : R :=
  match xp, fp with
  | x0 :: ((x1 :: _) as xp'), f0 :: ((f1 :: _) as fp') =>
      if Rlt_dec xi x1
      then (f1 - f0) / (x1 - x0) * (xi - x0) + f0
      else locate xi xp' fp'
  | _ :: _, f0 :: _ => f0
  | _, _ => 0
  end.

Definition interp1 (xi : R) (xp fp : array) : R :=
  if Rlt_dec xi (hd 0 xp) then hd 0 fp else locate xi xp fp.

Definition interp (x xp fp : array) : result array :=
  if (len xp =? 0)%Z then Err ValueError
  else if negb (len fp =? len xp)%Z then Err ValueError
  else Ok (map (fun xi => interp1 xi xp fp) x).

End np.

(** ** Paths and FITS files *)

Module os_path.

Definition starts_with_sep (s : string) : bool :=
  match s with
  | String c _ => Ascii.eqb c "/"%char
  | EmptyString => false
  end.

Fixpoint ends_with_sep (s : string) : bool :=
  match s with
  | EmptyString => false
  | String c EmptyString => Ascii.eqb c "/"%char
  | String _ s' => ends_with_sep s'
  end.

(** [os.path.join(a, b)] (posixpath). *)
Definition join (a b : string) : string :=
  if starts_with_sep b then b
  else if String.eqb a "" || ends_with_sep a then (a ++ b)%string
  else (a ++ "/" ++ b)%string.

End os_path.

(** The data of a table HDU: its columns by name.  An HDU without data
    has [None]. *)
Definition Table := list (string * array).
Definition HDUList := list (option Table).

Module fits.

(** [fxs[i].data] on an HDU list. *)
Definition hdu (fxs : HDUList) (i : Z) : result (option Table) :=
  match np.index (np.len fxs) i with
  | Some k =>
      match nth_error fxs k with
      | Some h => Ok h
      | None => Err IndexError
      end
  | None => Err IndexError
  end.

Fixpoint column (t : Table) (name : string) : result array :=
  match t with
  | [] => Err KeyError
  | (n, c) :: t' => if String.eqb n name then Ok c else column t' name
  end.

(** [dxs[name]] where [dxs] is the [.data] of an HDU. *)
Definition field (dxs : option Table) (name : string) : result array :=
  match dxs with
  | None => Err TypeError
  | Some t => column t name
  end.

End fits.

(** ** The world a method runs in *)

(** Calls received by a pyatomdb [CIESession] object. *)
Inductive call : Type :=
| Call_CIESession (abundset : string)
| Call_set_response (ebounds : array) (raw : bool)
| Call_set_abund (elements : list Z) (abund : R)
| Call_return_spectrum (kT : R).

(** What leaves the module. *)
Inductive event : Type :=
| Session (obj : nat) (c : call)
| FitsOpen (path : string)
| Print (text : string).

(** The attributes this module assigns on a function instance. *)
Record Instance : Type := mkInstance {
  session : attr nat;
  xsect_ene : attr array;
  xsect_val : attr array
}.

Record World : Type := mkWorld {
  self : Instance;
  log : list event
}.

(** What the module takes from outside: the contents of freshly
    allocated memory, the spectrum a session returns given the calls it
    has received, the user data directory of the host package's
    configuration, and the FITS files on disk. *)
Record Env : Type := mkEnv {
  garbage : Z -> R;
  spectrum : list call -> R -> array;
  get_user_data_path : string;
  fits_files : string -> result HDUList
}.

(** The calls the session object [obj] has received, oldest first. *)
Fixpoint history (obj : nat) (l : list event) : list call :=
  match l with
  | [] => []
  | Session o c :: l' =>
      if Nat.eqb o obj then c :: history obj l' else history obj l'
  | _ :: l' => history obj l'
  end.

Definition M (A : Type) : Type := World -> result A * World.

Definition ret {A : Type} (a : A) : M A := fun w => (Ok a, w).

Definition raise {A : Type} (e : exn) : M A := fun w => (Err e, w).

Definition lift {A : Type} (r : result A) : M A := fun w => (r, w).

Definition bind {A B : Type} (m : M A) (k : A -> M B) : M B :=
  fun w =>
    match m w with
    | (Ok a, w') => k a w'
    | (Err e, w') => (Err e, w')
    end.

Notation "x <- m ;; k" := (bind m (fun x => k))
  (at level 100, m at next level, right associativity).
Notation "m ;;; k" := (bind m (fun _ => k))
  (at level 100, right associativity).

Definition emit (e : event) : M unit :=
  fun w => (Ok tt, mkWorld (self w) (log w ++ [e])).

(** Reading [self.<a>]: a missing attribute raises, [None] is a value. *)
Definition getattr {A : Type} (a : Instance -> attr A) : M (option A) :=
  fun w =>
    match a (self w) with
    | Absent => (Err AttributeError, w)
    | PyNone => (Ok None, w)
    | Value v => (Ok (Some v), w)
    end.

Definition set_session (v : nat) : M unit :=
  fun w =>
    (Ok tt,
     mkWorld (mkInstance (Value v) (xsect_ene (self w)) (xsect_val (self w)))
             (log w)).

Definition set_xsect_ene (v : array) : M unit :=
  fun w =>
    (Ok tt,
     mkWorld (mkInstance (session (self w)) (Value v) (xsect_val (self w)))
             (log w)).

Definition set_xsect_val (v : array) : M unit :=
  fun w =>
    (Ok tt,
     mkWorld (mkInstance (session (self w)) (xsect_ene (self w)) (Value v))
             (log w)).

(** A method call on what [self.session] is bound to; [None] has no
    methods. *)
Definition invoke (sess : option nat) (c : call) : M unit :=
  match sess with
  | None => raise AttributeError
  | Some obj => emit (Session obj c)
  end.

Definition print (text : string) : M unit := emit (Print text).

(** [fits.open(path)] *)
Definition fits_open (E : Env) (path : string) : M HDUList :=
  emit (FitsOpen path) ;;; lift (fits_files E path).

(** [pyatomdb.spectrum.CIESession(abundset=...)]: a new session object. *)
Definition CIESession (abundset : string) : M nat :=
  fun w =>
    let obj := length (log w) in
    (Ok obj, mkWorld (self w) (log w ++ [Session obj (Call_CIESession abundset)])).

(** [sess.return_spectrum(kT)] *)
Definition return_spectrum (E : Env) (sess : option nat) (kT : R) : M array :=
  match sess with
  | None => raise AttributeError
  | Some obj =>
      fun w =>
        (Ok (spectrum E (history obj (log w)) kT),
         mkWorld (self w) (log w ++ [Session obj (Call_return_spectrum kT)]))
  end.

(** ** class APEC *)

Module APEC.
Section Methods.
Variable E : Env.

Definition init_session (abund_table : string) : M unit :=
  obj <- CIESession abund_table ;;
  set_session obj.

Definition evaluate (x : array) (K kT abund redshift : R) : M array :=
  sess <- getattr session ;;
  let nval := np.len x in
  let xz := np.mul_scalar x (1 + redshift) in
  rolled <- lift (np.add (np.roll xz (-1)) xz) ;;
  let ebplus := np.div_scalar (np.getslice rolled None (Some (nval - 1)%Z)) 2 in
  let ebounds := np.empty (garbage E) (nval + 1) in
  ebounds <- lift (np.setslice ebounds (Some 1%Z) (Some nval) ebplus) ;;
  a <- lift (np.getitem xz 0) ;;
  b <- lift (np.getitem ebplus 0) ;;
  c <- lift (np.getitem xz 0) ;;
  ebounds <- lift (np.setitem ebounds 0 (a - (b - c))) ;;
  a <- lift (np.getitem xz (nval - 1)) ;;
  b <- lift (np.getitem xz (nval - 1)) ;;
  c <- lift (np.getitem ebplus (nval - 2)) ;;
  ebounds <- lift (np.setitem ebounds nval (a + (b - c))) ;;
  differences <- lift (np.sub (np.roll ebounds (-1)) ebounds) ;;
  let binsize := np.getslice differences None (Some nval) in
  invoke sess (Call_set_response ebounds true) ;;;
  invoke sess
    (Call_set_abund
       [6; 7; 8; 9; 10; 11; 12; 13; 14; 16; 17; 18; 19; 20; 21; 22; 23; 24;
        25; 26; 27; 28; 29; 30]%Z
       abund) ;;;
  s <- return_spectrum E sess kT ;;
  q <- lift (np.div s binsize) ;;
  let spec := np.div_scalar q 1e-14 in
  ret (np.scalar_mul K spec).

End Methods.
End APEC.

(** ** class VAPEC *)

Module VAPEC.
Section Methods.
Variable E : Env.

Definition init_session (abund_table : string) : M unit :=
  obj <- CIESession abund_table ;;
  set_session obj.

Definition evaluate (x : array) (K kT abund redshift : R) : M array :=
  sess <- getattr session ;;
  let nval := np.len x in
  let xz := np.mul_scalar x (1 + redshift) in
  rolled <- lift (np.add (np.roll xz (-1)) xz) ;;
  let ebplus := np.div_scalar (np.getslice rolled None (Some (nval - 1)%Z)) 2 in
  let ebounds := np.empty (garbage E) (nval + 1) in
  ebounds <- lift (np.setslice ebounds (Some 1%Z) (Some nval) ebplus) ;;
  a <- lift (np.getitem xz 0) ;;
  b <- lift (np.getitem ebplus 0) ;;
  c <- lift (np.getitem xz 0) ;;
  ebounds <- lift (np.setitem ebounds 0 (a - (b - c))) ;;
  a <- lift (np.getitem xz (nval - 1)) ;;
  b <- lift (np.getitem xz (nval - 1)) ;;
  c <- lift (np.getitem ebplus (nval - 2)) ;;
  ebounds <- lift (np.setitem ebounds nval (a + (b - c))) ;;
  differences <- lift (np.sub (np.roll ebounds (-1)) ebounds) ;;
  let binsize := np.getslice differences None (Some nval) in
  invoke sess (Call_set_response ebounds true) ;;;
  invoke sess
    (Call_set_abund
       [3; 4; 5; 6; 7; 8; 9; 10; 11; 12; 13; 14; 16; 17; 18; 19; 20; 21; 22;
        23; 24; 25; 26; 27; 28; 29; 30]%Z
       abund) ;;;
  s <- return_spectrum E sess kT ;;
  q <- lift (np.div s binsize) ;;
  let spec := np.div_scalar q 1e-14 in
  ret (np.scalar_mul K spec).

End Methods.
End VAPEC.

(** The [assert self.xsect_ene is not None and self.xsect_val is not None]
    of both absorption classes; [and] does not read its second operand
    when the first is false. *)
Definition assert_xsect_loaded : M unit :=
  ene <- getattr xsect_ene ;;
  match ene with
  | None => raise AssertionError
  | Some _ =>
      val <- getattr xsect_val ;;
      match val with
      | None => raise AssertionError
      | Some _ => ret tt
      end
  end.

(** An argument of [np.interp] must be array-like; [None] is not. *)
Definition as_array (v : option array) : result array :=
  match v with
  | Some a => Ok a
  | None => Err TypeError
  end.

(** ** class PhAbs *)

Module PhAbs.
Section Methods.
Variable E : Env.

Definition init_xsect (abund_table : string) : M unit :=
  let path_to_xsect := os_path.join (get_user_data_path E) "xsect" in
  fxs <-
    (if String.eqb abund_table "AG89" then
       fits_open E (path_to_xsect ++ "/xsect_phabs_angr.fits")
     else if String.eqb abund_table "ASPL" then
       fits_open E (path_to_xsect ++ "/xsect_phabs_aspl.fits")
     else
       print ("Unknown abundace table " ++ abund_table ++ ", reverting to AG89") ;;;
       fits_open E (path_to_xsect ++ "/xsect_phabs_angr.fits")) ;;
  dxs <- lift (fits.hdu fxs 1) ;;
  ene <- lift (fits.field dxs "ENERGY") ;;
  set_xsect_ene ene ;;;
  val <- lift (fits.field dxs "SIGMA") ;;
  set_xsect_val val.

Definition evaluate (x : array) (NH : R) : M array :=
  assert_xsect_loaded ;;;
  xp <- getattr xsect_ene ;;
  fp <- getattr xsect_val ;;
  xp <- lift (as_array xp) ;;
  fp <- lift (as_array fp) ;;
  xsect_interp <- lift (np.interp x xp fp) ;;
  let spec := np.exp (np.scalar_mul (- NH) xsect_interp) in
  ret spec.

End Methods.
End PhAbs.

(** ** class TbAbs *)

Module TbAbs.
Section Methods.
Variable E : Env.

Definition init_xsect (abund_table : string) : M unit :=
  let path_to_xsect := os_path.join (get_user_data_path E) "xsect" in
  fxs <-
    (if String.eqb abund_table "AG89" then
       fits_open E (path_to_xsect ++ "/xsect_tbabs_angr.fits")
     else if String.eqb abund_table "ASPL" then
       fits_open E (path_to_xsect ++ "/xsect/xsect_tbabs_aspl.fits")
     else if String.eqb abund_table "WILM" then
       fits_open E (path_to_xsect ++ "/xsect/xsect_tbabs_wilm.fits")
     else
       print ("Unknown abundace table " ++ abund_table ++ ", reverting to WILM") ;;;
       fits_open E (path_to_xsect ++ "/xsect/xsect_tbabs_wilm.fits")) ;;
  dxs <- lift (fits.hdu fxs 1) ;;
  ene <- lift (fits.field dxs "ENERGY") ;;
  set_xsect_ene ene ;;;
  val <- lift (fits.field dxs "SIGMA") ;;
  set_xsect_val val.

Definition evaluate (x : array) (NH : R) : M array :=
  assert_xsect_loaded ;;;
  xp <- getattr xsect_ene ;;
  fp <- getattr xsect_val ;;
  xp <- lift (as_array xp) ;;
  fp <- lift (as_array fp) ;;
  xsect_interp <- lift (np.interp x xp fp) ;;
  let spec := np.exp (np.scalar_mul (- NH) xsect_interp) in
  ret spec.

End Methods.
End TbAbs.

(** ** Reading the code in closed form *)

(** [a.[i]]: the element a non-negative in-range index selects. *)
Definition at_ (a : array) (i : Z) : R := nth (Z.to_nat i) a 0.

Notation "a .[ i ]" := (at_ a i) (at level 1, left associativity,
  format "a .[ i ]").

(** The means of neighbouring centres, in the operand order of the code
    ([np.roll(xz, -1) + xz]). *)
Fixpoint midpoints (xz : array) : array :=
  match xz with
  | a :: ((b :: _) as t) => (b + a) / 2 :: midpoints t
  | _ => []
  end.

(** The bin edges the code assembles around [midpoints]. *)
Definition edges (xz : array) : array :=
  let m := midpoints xz in
  (nth 0 xz 0 - (nth 0 m 0 - nth 0 xz 0))
    :: m
    ++ [nth (length xz - 1) xz 0
        + (nth (length xz - 1) xz 0 - nth (length xz - 2) m 0)].

(** [ebounds[i+1] - ebounds[i]] *)
Definition widths (eb : array) : array := np.zip_with Rminus (tl eb) eb.

(** Neighbouring elements increase strictly. *)
Definition increasing (a : array) : Prop :=
  forall i : Z, (0 <= i)%Z -> (i + 1 < np.len a)%Z -> a.[i] < a.[i + 1].

(** The elements an atomic-database session is told to rescale. *)
Definition APEC_elements : list Z :=
  [6; 7; 8; 9; 10; 11; 12; 13; 14; 16; 17; 18; 19; 20; 21; 22; 23; 24;
   25; 26; 27; 28; 29; 30]%Z.

Definition VAPEC_elements : list Z :=
  [3; 4; 5; 6; 7; 8; 9; 10; 11; 12; 13; 14; 16; 17; 18; 19; 20; 21; 22;
   23; 24; 25; 26; 27; 28; 29; 30]%Z.

(** The three session calls of one evaluation, in program order. *)
Definition session_calls (obj : nat) (elements : list Z) (ebounds : array)
  (abund kT : R) : list event :=
  [Session obj (Call_set_response ebounds true);
   Session obj (Call_set_abund elements abund);
   Session obj (Call_return_spectrum kT)].

(** What an evaluation on a grid of at least two centres amounts to,
    for a session object [sess] and the element list of the class. *)
Definition outcome (E : Env) (elements : list Z) (x : array)
  (K kT abund z : R) (w : World) (sess : nat) : result array * World :=
  let eb := edges (np.mul_scalar x (1 + z)) in
  let told :=
    (log w ++ [Session sess (Call_set_response eb true);
               Session sess (Call_set_abund elements abund)])%list in
  (match np.div (spectrum E (history sess told) kT) (widths eb) with
   | Ok q => Ok (np.scalar_mul K (np.div_scalar q 1e-14))
   | Err e => Err e
   end,
   mkWorld (self w) (log w ++ session_calls sess elements eb abund kT)).

(** Lines 73 to 77 and 153 to 157 on their own: the array [ebplus]. *)
Definition ebplus (x : array) (redshift : R) : result array :=
  let nval := np.len x in
  let xz := np.mul_scalar x (1 + redshift) in
  match np.add (np.roll xz (-1)) xz with
  | Ok rolled =>
      Ok (np.div_scalar (np.getslice rolled None (Some (nval - 1)%Z)) 2)
  | Err e => Err e
  end.

(** [ebounds] is the array that an evaluation started in [w], of either
    class, hands to [set_response] with [raw=True], followed by the
    abundance call and the request for the spectrum. *)
Definition passes_ebounds (E : Env) (x : array) (K kT abund z : R)
  (w : World) (sess : nat) (ebounds : array) : Prop :=
  log (snd (APEC.evaluate E x K kT abund z w))
  = (log w ++ session_calls sess APEC_elements ebounds abund kT)%list /\
  log (snd (VAPEC.evaluate E x K kT abund z w))
  = (log w ++ session_calls sess VAPEC_elements ebounds abund kT)%list.

(** The bin edges of the centres [xz = x * (1 + z)]: midpoints inside,
    the outer two mirrored about the first and last centre. *)
Definition bin_edge_formula (x : array) (z : R) (ebounds : array) : Prop :=
  let n := np.len x in
  let xz := np.mul_scalar x (1 + z) in
  np.len ebounds = (n + 1)%Z /\
  (forall i : Z, (1 <= i <= n - 1)%Z ->
     ebounds.[i] = (xz.[i - 1] + xz.[i]) / 2) /\
  ebounds.[0] = 2 * xz.[0] - ebounds.[1] /\
  ebounds.[n] = 2 * xz.[n - 1] - ebounds.[n - 1].

(** Every centre lies strictly between its two edges. *)
Definition brackets (x : array) (z : R) (ebounds : array) : Prop :=
  let xz := np.mul_scalar x (1 + z) in
  forall i : Z, (0 <= i <= np.len x - 1)%Z ->
    ebounds.[i] < xz.[i] < ebounds.[i + 1].

(** [result] is [K * s / binsize / 1e-14] elementwise, the bin sizes
    being the differences of neighbouring [ebounds]. *)
Definition scaled_spectrum (K : R) (s ebounds result : array) : Prop :=
  np.len result = np.len s /\
  forall i : Z, (0 <= i <= np.len s - 1)%Z ->
    result.[i] = K * s.[i] / (ebounds.[i + 1] - ebounds.[i]) / 1e-14.

(** The spectrum the session returns once it has been given [ebounds]
    and the abundances of [elements]. *)
Definition spectrum_after (E : Env) (w : World) (sess : nat)
  (elements : list Z) (ebounds : array) (abund kT : R) : array :=
  spectrum E
    (history sess
       (log w ++ [Session sess (Call_set_response ebounds true);
                  Session sess (Call_set_abund elements abund)])%list)
    kT.

(** [sigma] interpolates the table [(xp, fp)] linearly between
    neighbouring points and is constant outside it. *)
Definition piecewise_linear (xp fp : array) (sigma : R -> R) : Prop :=
  let n := np.len xp in
  (forall xi : R, xi < xp.[0] -> sigma xi = fp.[0]) /\
  (forall xi : R, xp.[n - 1] <= xi -> sigma xi = fp.[n - 1]) /\
  (forall (xi : R) (j : Z), (0 <= j)%Z -> (j + 1 < n)%Z ->
     xp.[j] <= xi < xp.[j + 1] ->
     sigma xi
     = (fp.[j + 1] - fp.[j]) / (xp.[j + 1] - xp.[j]) * (xi - xp.[j])
       + fp.[j]).

(** The files opened so far, oldest first. *)
Fixpoint fits_opened (l : list event) : list string :=
  match l with
  | [] => []
  | FitsOpen p :: l' => p :: fits_opened l'
  | _ :: l' => fits_opened l'
  end.

(** The directory both [init_xsect] methods start from. *)
Definition path_to_xsect (E : Env) : string :=
  os_path.join (get_user_data_path E) "xsect".

(** A run of [init_xsect] from [w] opened exactly the file [path], and
    when that file has an extension 1 with columns ENERGY and SIGMA the
    run returned with the two attributes bound to these columns. *)
Definition loads_once (E : Env) (w : World) (run : result unit * World)
  (path : string) : Prop :=
  fits_opened (log (snd run)) = (fits_opened (log w) ++ [path])%list /\
  forall (fxs : HDUList) (dxs : option Table) (ene val : array),
    fits_files E path = Ok fxs ->
    fits.hdu fxs 1 = Ok dxs ->
    fits.field dxs "ENERGY" = Ok ene ->
    fits.field dxs "SIGMA" = Ok val ->
    fst run = Ok tt /\
    xsect_ene (self (snd run)) = Value ene /\
    xsect_val (self (snd run)) = Value val /\
    session (self (snd run)) = session (self w).

(** Lines 213 to 215 and 260 to 262: what both [init_xsect] methods do
    with what [fits.open] gave. *)
Definition read_columns (opened : result HDUList) : M unit :=
  fxs <- lift opened ;;
  dxs <- lift (fits.hdu fxs 1) ;;
  ene <- lift (fits.field dxs "ENERGY") ;;
  set_xsect_ene ene ;;;
  val <- lift (fits.field dxs "SIGMA") ;;
  set_xsect_val val.

(** The file each [if]/[elif]/[else] chain selects, and what it prints
    on the way. *)
Definition PhAbs_selected (E : Env) (abund_table : string) : string :=
  if String.eqb abund_table "AG89"
  then path_to_xsect E ++ "/xsect_phabs_angr.fits"
  else if String.eqb abund_table "ASPL"
  then path_to_xsect E ++ "/xsect_phabs_aspl.fits"
  else path_to_xsect E ++ "/xsect_phabs_angr.fits".

Definition PhAbs_printed (abund_table : string) : list event :=
  if String.eqb abund_table "AG89" then []
  else if String.eqb abund_table "ASPL" then []
  else [Print ("Unknown abundace table " ++ abund_table
               ++ ", reverting to AG89")].

Definition TbAbs_selected (E : Env) (abund_table : string) : string :=
  if String.eqb abund_table "AG89"
  then path_to_xsect E ++ "/xsect_tbabs_angr.fits"
  else if String.eqb abund_table "ASPL"
  then path_to_xsect E ++ "/xsect/xsect_tbabs_aspl.fits"
  else if String.eqb abund_table "WILM"
  then path_to_xsect E ++ "/xsect/xsect_tbabs_wilm.fits"
  else path_to_xsect E ++ "/xsect/xsect_tbabs_wilm.fits".

Definition TbAbs_printed (abund_table : string) : list event :=
  if String.eqb abund_table "AG89" then []
  else if String.eqb abund_table "ASPL" then []
  else if String.eqb abund_table "WILM" then []
  else [Print ("Unknown abundace table " ++ abund_table
               ++ ", reverting to WILM")].

(** A run of [init_xsect] from [w] on a table name it does not know:
    it prints [message], opens [path], and from there on is the run
    [reference] on the table name it reverts to. *)
Definition falls_back (E : Env) (w : World)
  (run reference : result unit * World) (message path : string) : Prop :=
  log (snd run) = (log w ++ [Print message; FitsOpen path])%list /\
  log (snd reference) = (log w ++ [FitsOpen path])%list /\
  fst run = fst reference /\
  self (snd run) = self (snd reference) /\
  loads_once E w run path.

(** A computation that assigns no attribute of [self]. *)
Definition keeps_self {A : Type} (m : M A) : Prop :=
  forall w : World, self (snd (m w)) = self w.

(** A computation that neither assigns an attribute nor makes a call
    that leaves the module. *)
Definition silent {A : Type} (m : M A) : Prop :=
  forall w : World, snd (m w) = w.

(** ** A small concrete world *)

Module Sample.

Definition table : Table := [("ENERGY", [1; 2; 4]); ("SIGMA", [8; 6; 2])]%string.

Definition E : Env :=
  mkEnv (fun _ => 7)
        (fun _ _ => [10; 20; 30])
        "/home/user/.astromodels/data"
        (fun _ => Ok [None; Some table]).

Definition w : World :=
  mkWorld (mkInstance (Value 0%nat) (Value [1; 2; 4]) (Value [8; 6; 2])) [].

Definition x : array := [1; 2; 3].

End Sample.

(** ** Notions for the behaviour around the edges of the domain *)

(** [E] with other contents of freshly allocated memory. *)
Definition with_garbage (E : Env) (g : Z -> R) : Env :=
  mkEnv g (spectrum E) (get_user_data_path E) (fits_files E).

(** [K *] applied to what a run returned, an exception left as it is. *)
Definition scaled_by (K : R) (r : result array) : result array :=
  match r with
  | Ok a => Ok (np.scalar_mul K a)
  | Err e => Err e
  end.

(** Neighbouring centres are [d] apart. *)
Definition uniform (x : array) (d : R) : Prop :=
  forall i : Z, (0 <= i)%Z -> (i + 1 < np.len x)%Z -> x.[i + 1] - x.[i] = d.

(** Every centre of [xz = x * (1 + z)] is the middle of its bin, and
    every bin is [width] wide. *)
Definition centred_bins (x : array) (z width : R) (ebounds : array) : Prop :=
  let xz := np.mul_scalar x (1 + z) in
  forall i : Z, (0 <= i <= np.len x - 1)%Z ->
    ebounds.[i] = xz.[i] - width / 2 /\
    ebounds.[i + 1] = xz.[i] + width / 2.

(** No call in the log of [w] is on the object that the next
    constructor call creates. *)
Definition next_object_unused (w : World) : Prop :=
  forall c : call, ~ In (Session (length (log w)) c) (log w).

(** [result] is the single value [s0] spread over the [n] bins:
    [K * s0 / binsize / 1e-14] elementwise. *)
Definition spread_spectrum (K s0 : R) (n : Z) (ebounds result : array)
  : Prop :=
  np.len result = n /\
  forall i : Z, (0 <= i <= n - 1)%Z ->
    result.[i] = K * s0 / (ebounds.[i + 1] - ebounds.[i]) / 1e-14.

Definition nonneg (a : array) : Prop :=
  forall i : Z, (0 <= i < np.len a)%Z -> 0 <= a.[i].

(** Every value of [a] lies between 0 and 1, both included. *)
Definition transmission (a : array) : Prop :=
  forall i : Z, (0 <= i < np.len a)%Z -> 0 <= a.[i] <= 1.

(** A run of [init_xsect] from [w] opened the file [path] and no
    other. *)
Definition opens (w : World) (run : result unit * World) (path : string)
  : Prop :=
  fits_opened (log (snd run)) = (fits_opened (log w) ++ [path])%list.

(** The file at [path] has an extension 1 whose ENERGY and SIGMA
    columns are [ene] and [val]. *)
Definition table_in_file (E : Env) (path : string) (ene val : array)
  : Prop :=
  exists (fxs : HDUList) (dxs : option Table),
    fits_files E path = Ok fxs /\
    fits.hdu fxs 1 = Ok dxs /\
    fits.field dxs "ENERGY" = Ok ene /\
    fits.field dxs "SIGMA" = Ok val.

(** Reading the file at [path] fails with [e] before its SIGMA column
    is asked for: it cannot be opened, has no extension 1, or the
    ENERGY column cannot be read. *)
Definition fails_before_sigma (E : Env) (path : string) (e : exn) : Prop :=
  fits_files E path = Err e \/
  (exists fxs : HDUList,
     fits_files E path = Ok fxs /\ fits.hdu fxs 1 = Err e) \/
  (exists (fxs : HDUList) (dxs : option Table),
     fits_files E path = Ok fxs /\ fits.hdu fxs 1 = Ok dxs /\
     fits.field dxs "ENERGY" = Err e).

(** The file at [path] has an ENERGY column [ene] in extension 1, and
    reading its SIGMA column fails with [e]. *)
Definition fails_at_sigma (E : Env) (path : string) (ene : array) (e : exn)
  : Prop :=
  exists (fxs : HDUList) (dxs : option Table),
    fits_files E path = Ok fxs /\
    fits.hdu fxs 1 = Ok dxs /\
    fits.field dxs "ENERGY" = Ok ene /\
    fits.field dxs "SIGMA" = Err e.

(** The table bound to the instance can be interpolated: both columns
    are there, they are as long as each other, and not empty. *)
Definition table_usable (w : World) : Prop :=
  exists ene val : array,
    xsect_ene (self w) = Value ene /\
    xsect_val (self w) = Value val /\
    (1 <= np.len ene)%Z /\
    np.len val = np.len ene.

(** ** Worlds and files at the edges *)

Module Edge.

(** A session that answers with a single value. *)
Definition single : Env :=
  mkEnv (fun _ => 0) (fun _ _ => [5]) "" (fun _ => Err OSError).

(** A file whose extension 1 has energies but no cross sections. *)
Definition no_sigma : Env :=
  mkEnv (fun _ => 0) (fun _ _ => []) "/data"
        (fun _ => Ok [None; Some [("ENERGY", [1; 2; 4])]%string]).

(** No file can be opened. *)
Definition no_file : Env :=
  mkEnv (fun _ => 0) (fun _ _ => []) "/data" (fun _ => Err OSError).

(** An instance on which nothing was initialised. *)
Definition blank : World := mkWorld (mkInstance Absent Absent Absent) [].

End Edge.

(** ** The bin-edge construction over binary64 numbers *)

Module float64.

Definition farray := list float.

Definition and_then {A B : Type} (r : result A) (k : A -> result B)
  : result B :=
  match r with
  | Ok a => k a
  | Err e => Err e
  end.

Notation "x <-- r ;; k" := (and_then r (fun x => k))
  (at level 100, r at next level, right associativity).

(** The operations of [np], with the same indices, slices and
    broadcasting, on arrays of binary64 numbers. *)
Definition getitem (a : farray) (i : Z) : result float :=
  match np.index (np.len a) i with
  | Some k => Ok (nth k a nan)
  | None => Err IndexError
  end.

Definition setitem (a : farray) (i : Z) (v : float) : result farray :=
  match np.index (np.len a) i with
  | Some k => Ok (firstn k a ++ v :: skipn (S k) a)
  | None => Err IndexError
  end.

Definition getslice (a : farray) (start stop : option Z) : farray :=
  let '(lo, cnt) := np.extent (np.len a) start stop in
  firstn cnt (skipn lo a).

Definition setslice (a : farray) (start stop : option Z) (v : farray)
  : result farray :=
  let '(lo, cnt) := np.extent (np.len a) start stop in
  if Nat.eqb (length v) cnt
  then Ok (firstn lo a ++ v ++ skipn (lo + cnt) a)
  else if Nat.eqb (length v) 1
  then Ok (firstn lo a ++ repeat (hd nan v) cnt ++ skipn (lo + cnt) a)
  else Err ValueError.

Fixpoint zip_with (f : float -> float -> float) (a b : farray) : farray :=
  match a, b with
  | u :: a', v :: b' => f u v :: zip_with f a' b'
  | _, _ => []
  end.

Definition elementwise (f : float -> float -> float) (a b : farray)
  : result farray :=
  if Nat.eqb (length a) (length b) then Ok (zip_with f a b)
  else if Nat.eqb (length b) 1 then Ok (map (fun u => f u (hd nan b)) a)
  else if Nat.eqb (length a) 1 then Ok (map (f (hd nan a)) b)
  else Err ValueError.

Definition mul_scalar (a : farray) (c : float) : farray :=
  map (fun v => PrimFloat.mul v c) a.

Definition div_scalar (a : farray) (c : float) : farray :=
  map (fun v => PrimFloat.div v c) a.

Definition roll (a : farray) (shift : Z) : farray :=
  if (np.len a =? 0)%Z then a
  else
    let k := Z.to_nat ((- shift) mod np.len a) in
    skipn k a ++ firstn k a.

Definition empty (garbage : Z -> float) (n : Z) : farray :=
  map (fun k => garbage (Z.of_nat k)) (seq 0 (Z.to_nat n)).



(** [ebounds[i] < xz[i] < ebounds[i+1]] for every centre. *)
Fixpoint brackets (xz ebounds : farray) : bool :=
  match xz, ebounds with
  | [], _ => true
  | c :: xz', lo :: ((hi :: _) as rest) =>
      PrimFloat.ltb lo c && PrimFloat.ltb c hi && brackets xz' rest
  | _ :: _, _ => false
  end.


End float64.

(** * Lemmas on the numpy operations *)

Section NumpyFacts.

Lemma len_nonneg {A : Type} (a : list A) : (0 <= np.len a)%Z.
Proof. unfold np.len. lia. Qed.

Lemma len_cons {A : Type} (v : A) (a : list A) :
  np.len (v :: a) = (np.len a + 1)%Z.
Proof. unfold np.len. cbn [length]. lia. Qed.

Lemma index_nonneg (n i : Z) :
  (0 <= i < n)%Z -> np.index n i = Some (Z.to_nat i).
Proof.
  intros H. unfold np.index.
  destruct (Z.ltb_spec i (- n)); [lia|].
  destruct (Z.ltb_spec i 0); [lia|].
  destruct (Z.ltb_spec i n); [reflexivity|lia].
Qed.

Lemma index_outside (n i : Z) :
  (i < - n \/ n <= i)%Z -> (0 <= n)%Z -> np.index n i = None.
Proof.
  intros H Hn. unfold np.index.
  destruct (Z.ltb_spec i (- n)); [reflexivity|].
  destruct (Z.ltb_spec i 0); [lia|].
  destruct (Z.ltb_spec i n); [lia|reflexivity].
Qed.

Lemma getitem_in (a : array) (i : Z) :
  (0 <= i < np.len a)%Z -> np.getitem a i = Ok a.[i].
Proof.
  intros H. unfold np.getitem. now rewrite index_nonneg.
Qed.

Lemma getitem_empty (i : Z) : np.getitem [] i = Err IndexError.
Proof.
  unfold np.getitem. rewrite index_outside; [reflexivity| |].
  - change (np.len (@nil R)) with 0%Z. lia.
  - apply len_nonneg.
Qed.

Lemma setitem_in (a : array) (i : Z) (v : R) :
  (0 <= i < np.len a)%Z ->
  np.setitem a i v
  = Ok (firstn (Z.to_nat i) a ++ v :: skipn (S (Z.to_nat i)) a).
Proof.
  intros H. unfold np.setitem. now rewrite index_nonneg.
Qed.

Lemma getslice_prefix (a : array) (k : Z) :
  (0 <= k <= np.len a)%Z ->
  np.getslice a None (Some k) = firstn (Z.to_nat k) a.
Proof.
  intros H. unfold np.getslice, np.extent, np.bound.
  destruct (Z.ltb_spec k 0); [lia|].
  rewrite Z.min_l by lia. rewrite Z.sub_0_r. reflexivity.
Qed.

Lemma roll_left (v : R) (a : array) : np.roll (v :: a) (-1) = a ++ [v].
Proof.
  unfold np.roll. rewrite len_cons.
  destruct (Z.eqb_spec (np.len a + 1) 0) as [H0|_].
  - pose proof (len_nonneg a). lia.
  - destruct a as [|u a'].
    + reflexivity.
    + rewrite len_cons.
      replace (- -1)%Z with 1%Z by reflexivity.
      rewrite Z.mod_small by (pose proof (len_nonneg a'); lia).
      reflexivity.
Qed.

Lemma roll_nil : np.roll [] (-1) = [].
Proof. reflexivity. Qed.

Lemma elementwise_same (f : R -> R -> R) (a b : array) :
  length a = length b -> np.elementwise f a b = Ok (np.zip_with f a b).
Proof.
  intros H. unfold np.elementwise. now rewrite H, Nat.eqb_refl.
Qed.

Lemma zip_with_length (f : R -> R -> R) (a b : array) :
  length (np.zip_with f a b) = Nat.min (length a) (length b).
Proof.
  revert b. induction a as [|u a IH]; intros [|v b]; cbn; auto.
Qed.

Lemma zip_with_prefix (f : R -> R -> R) (a u b : array) :
  (length a <= length b)%nat ->
  firstn (length a) (np.zip_with f (a ++ u) b) = np.zip_with f a b.
Proof.
  revert b. induction a as [|v a IH]; intros b H.
  - reflexivity.
  - destruct b as [|y b]; cbn in *; [lia|].
    f_equal. apply IH. lia.
Qed.

Lemma zip_with_nth (f : R -> R -> R) (a b : array) (i : nat) :
  (i < length a)%nat -> (i < length b)%nat ->
  nth i (np.zip_with f a b) 0 = f (nth i a 0) (nth i b 0).
Proof.
  revert b i. induction a as [|u a IH]; intros [|v b] [|i] Ha Hb;
    cbn in *; try lia; auto.
  apply IH; lia.
Qed.

End NumpyFacts.

(** * The bin-edge construction in closed form *)

Section BinEdges.

Lemma midpoints_length (xz : array) :
  length (midpoints xz) = (length xz - 1)%nat.
Proof.
  induction xz as [|a [|b t] IH]; cbn [midpoints length] in *; lia.
Qed.

Lemma midpoints_nth (xz : array) (i : nat) :
  (S i < length xz)%nat ->
  nth i (midpoints xz) 0 = (nth (S i) xz 0 + nth i xz 0) / 2.
Proof.
  revert i. induction xz as [|a [|b t] IH]; intros i H; cbn [length] in H;
    try lia.
  destruct i as [|i].
  - reflexivity.
  - cbn [midpoints]. change (nth (S i) (?u :: ?l) 0) with (nth i l 0).
    rewrite IH by (cbn [length]; lia). reflexivity.
Qed.

(** Lines 77 and 157: [(np.roll(xz, -1) + xz)[:nval - 1] / 2.] *)
Lemma ebplus_closed (xz : array) :
  (1 <= np.len xz)%Z ->
  exists rolled,
    np.add (np.roll xz (-1)) xz = Ok rolled /\
    np.div_scalar (np.getslice rolled None (Some (np.len xz - 1)%Z)) 2
    = midpoints xz.
Proof.
  intros H. destruct xz as [|a t]; [cbn in H; lia|].
  exists (np.zip_with Rplus (t ++ [a]) (a :: t)). split.
  - rewrite roll_left. apply elementwise_same.
    rewrite length_app. cbn. lia.
  - rewrite getslice_prefix.
    2:{ rewrite len_cons. unfold np.len.
        rewrite zip_with_length, length_app. cbn [length]. lia. }
    rewrite len_cons. replace (np.len t + 1 - 1)%Z with (np.len t) by lia.
    unfold np.len. rewrite Nat2Z.id.
    rewrite zip_with_prefix by (cbn; lia).
    clear H. revert a. induction t as [|b t IH]; intros a.
    + reflexivity.
    + cbn [np.zip_with np.div_scalar map midpoints].
      f_equal. apply IH.
Qed.

Lemma empty_length (g : Z -> R) (n : Z) :
  length (np.empty g n) = Z.to_nat n.
Proof. unfold np.empty. now rewrite length_map, length_seq. Qed.

(** An array of [k + 2] slots, each about to be overwritten. *)
Lemma two_ends (a : array) (k : nat) :
  length a = S (S k) ->
  exists u mid v, a = u :: mid ++ [v] /\ length mid = k.
Proof.
  intros H. destruct a as [|u a]; [discriminate|].
  destruct (@exists_last _ a) as (mid & v & ->).
  { intros ->. discriminate. }
  exists u, mid, v. split; [reflexivity|].
  cbn in H. rewrite length_app in H. cbn in H. lia.
Qed.

(** Lines 79 to 85 and 159 to 165: the three assignments into the fresh
    array fill every slot. *)
Lemma ebounds_filled (fresh m : array) (e0 en : R) :
  length fresh = S (S (length m)) ->
  exists e1 e2,
    np.setslice fresh (Some 1%Z) (Some (np.len m + 1)%Z) m = Ok e1 /\
    np.setitem e1 0 e0 = Ok e2 /\
    np.setitem e2 (np.len m + 1) en = Ok (e0 :: m ++ [en]).
Proof.
  intros H. destruct (two_ends fresh (length m) H) as (u & mid & v & -> & Hm).
  exists (u :: m ++ [v]), (e0 :: m ++ [v]). split; [|split].
  - unfold np.setslice, np.extent, np.bound.
    assert (Hl : np.len (u :: mid ++ [v]) = (np.len m + 2)%Z).
    { unfold np.len. cbn. rewrite length_app. cbn. lia. }
    rewrite Hl. pose proof (len_nonneg m) as Hn.
    destruct (Z.ltb_spec 1 0); [lia|].
    destruct (Z.ltb_spec (np.len m + 1) 0); [lia|].
    rewrite !Z.min_l by lia.
    replace (np.len m + 1 - 1)%Z with (np.len m) by lia.
    unfold np.len. rewrite Nat2Z.id. change (Z.to_nat 1) with 1%nat.
    rewrite Nat.eqb_refl. cbn [firstn skipn Nat.add app].
    rewrite <- Hm, skipn_app, skipn_all, Nat.sub_diag. reflexivity.
  - rewrite setitem_in; [reflexivity|]. rewrite len_cons.
    pose proof (len_nonneg (m ++ [v])). lia.
  - rewrite setitem_in.
    2:{ unfold np.len. cbn [length]. rewrite length_app. cbn [length]. lia. }
    unfold np.len. replace (Z.of_nat (length m) + 1)%Z
      with (Z.of_nat (S (length m))) by lia.
    rewrite Nat2Z.id.
    change (e0 :: m ++ [v]) with ((e0 :: m) ++ [v]).
    change (S (length m)) with (length (e0 :: m)).
    rewrite firstn_app, firstn_all, Nat.sub_diag, skipn_app.
    rewrite (skipn_all2 (e0 :: m)) by lia.
    replace (S (length (e0 :: m)) - length (e0 :: m))%nat with 1%nat by lia.
    cbn [firstn skipn app]. now rewrite app_nil_r.
Qed.

(** Lines 87 and 167: [(np.roll(ebounds, -1) - ebounds)[:nval]] *)
Lemma binsize_closed (eb : array) :
  (1 <= np.len eb)%Z ->
  exists d,
    np.sub (np.roll eb (-1)) eb = Ok d /\
    np.getslice d None (Some (np.len eb - 1)%Z) = widths eb.
Proof.
  intros H. destruct eb as [|a t]; [cbn in H; lia|].
  exists (np.zip_with Rminus (t ++ [a]) (a :: t)). split.
  - rewrite roll_left. apply elementwise_same.
    rewrite length_app. cbn. lia.
  - rewrite getslice_prefix.
    2:{ rewrite len_cons. unfold np.len.
        rewrite zip_with_length, length_app. cbn [length]. lia. }
    rewrite len_cons. replace (np.len t + 1 - 1)%Z with (np.len t) by lia.
    unfold np.len. rewrite Nat2Z.id. unfold widths. cbn [tl].
    apply zip_with_prefix. cbn. lia.
Qed.

End BinEdges.

Section EdgesFacts.

Lemma len_mul_scalar (x : array) (c : R) :
  np.len (np.mul_scalar x c) = np.len x.
Proof. unfold np.len, np.mul_scalar. now rewrite length_map. Qed.

Lemma len_midpoints (xz : array) :
  (1 <= np.len xz)%Z -> np.len (midpoints xz) = (np.len xz - 1)%Z.
Proof. unfold np.len. rewrite midpoints_length. lia. Qed.

Lemma len_edges (xz : array) :
  (1 <= np.len xz)%Z -> np.len (edges xz) = (np.len xz + 1)%Z.
Proof.
  unfold np.len, edges. cbn [length]. rewrite length_app, midpoints_length.
  cbn [length]. lia.
Qed.

Lemma midpoints_at (xz : array) (i : Z) :
  (0 <= i)%Z -> (i + 1 < np.len xz)%Z ->
  (midpoints xz).[i] = (xz.[i + 1] + xz.[i]) / 2.
Proof.
  unfold np.len, at_. intros H0 H1.
  rewrite midpoints_nth by lia.
  replace (Z.to_nat (i + 1)) with (S (Z.to_nat i)) by lia. reflexivity.
Qed.

Lemma edges_at_first (xz : array) :
  (edges xz).[0] = xz.[0] - ((midpoints xz).[0] - xz.[0]).
Proof. reflexivity. Qed.

Lemma edges_at_inner (xz : array) (i : Z) :
  (1 <= i)%Z -> (i < np.len xz)%Z -> (edges xz).[i] = (midpoints xz).[i - 1].
Proof.
  unfold np.len, at_, edges. intros H1 H2.
  replace (Z.to_nat i) with (S (Z.to_nat (i - 1))) by lia.
  cbn [nth]. rewrite app_nth1; [reflexivity|].
  rewrite midpoints_length. lia.
Qed.

Lemma edges_at_last (xz : array) :
  (1 <= np.len xz)%Z ->
  (edges xz).[np.len xz]
  = xz.[np.len xz - 1]
    + (xz.[np.len xz - 1] - (midpoints xz).[np.len xz - 2]).
Proof.
  unfold np.len, at_, edges. intros H.
  replace (Z.to_nat (Z.of_nat (length xz)))
    with (S (length (midpoints xz))) by (rewrite midpoints_length; lia).
  cbn [nth]. rewrite app_nth2, Nat.sub_diag by lia. cbn [nth].
  replace (Z.to_nat (Z.of_nat (length xz) - 1)) with (length xz - 1)%nat
    by lia.
  replace (Z.to_nat (Z.of_nat (length xz) - 2)) with (length xz - 2)%nat
    by lia.
  reflexivity.
Qed.

Lemma edges_unfold (xz : array) :
  edges xz
  = xz.[0] - ((midpoints xz).[0] - xz.[0])
    :: midpoints xz
    ++ [xz.[np.len xz - 1]
        + (xz.[np.len xz - 1] - (midpoints xz).[np.len xz - 2])].
Proof.
  unfold edges, at_, np.len. cbv zeta.
  replace (Z.to_nat (Z.of_nat (length xz) - 1)) with (length xz - 1)%nat
    by lia.
  replace (Z.to_nat (Z.of_nat (length xz) - 2)) with (length xz - 2)%nat
    by lia.
  reflexivity.
Qed.

Lemma widths_length (eb : array) : length (widths eb) = (length eb - 1)%nat.
Proof.
  unfold widths. rewrite zip_with_length. destruct eb; cbn [tl length]; lia.
Qed.

Lemma widths_at (eb : array) (i : Z) :
  (0 <= i)%Z -> (i + 1 < np.len eb)%Z ->
  (widths eb).[i] = eb.[i + 1] - eb.[i].
Proof.
  unfold np.len, at_, widths. intros H0 H1.
  destruct eb as [|a t]; cbn [length tl] in *; [lia|].
  rewrite zip_with_nth by (cbn [length]; lia).
  replace (Z.to_nat (i + 1)) with (S (Z.to_nat i)) by lia. reflexivity.
Qed.

End EdgesFacts.

(** * Running the methods *)

Section Running.

Lemma bind_lift_ok {A B : Type} (r : result A) (a : A) (k : A -> M B)
  (w : World) :
  r = Ok a -> bind (lift r) k w = k a w.
Proof. intros ->. reflexivity. Qed.

Lemma bind_lift_err {A B : Type} (r : result A) (e : exn) (k : A -> M B)
  (w : World) :
  r = Err e -> bind (lift r) k w = (Err e, w).
Proof. intros ->. reflexivity. Qed.

Lemma bind_getattr_value {A B : Type} (a : Instance -> attr A) (v : A)
  (k : option A -> M B) (w : World) :
  a (self w) = Value v -> bind (getattr a) k w = k (Some v) w.
Proof. intros H. unfold bind, getattr. now rewrite H. Qed.

(** Lines 73 to 87 and 153 to 167 as one statement: from a grid of at
    least two centres every step succeeds, the edges are [edges xz] and
    the bin sizes their differences. *)
Lemma construction_steps (g : Z -> R) (x : array) (z : R) :
  (2 <= np.len x)%Z ->
  let nval := np.len x in
  let xz := np.mul_scalar x (1 + z) in
  exists rolled e1 e2 d,
    let ebplus :=
      np.div_scalar (np.getslice rolled None (Some (nval - 1)%Z)) 2 in
    np.add (np.roll xz (-1)) xz = Ok rolled /\
    ebplus = midpoints xz /\
    np.setslice (np.empty g (nval + 1)) (Some 1%Z) (Some nval) ebplus = Ok e1 /\
    np.getitem xz 0 = Ok xz.[0] /\
    np.getitem ebplus 0 = Ok (midpoints xz).[0] /\
    np.setitem e1 0 (xz.[0] - ((midpoints xz).[0] - xz.[0])) = Ok e2 /\
    np.getitem xz (nval - 1) = Ok xz.[nval - 1] /\
    np.getitem ebplus (nval - 2) = Ok (midpoints xz).[nval - 2] /\
    np.setitem e2 nval
      (xz.[nval - 1] + (xz.[nval - 1] - (midpoints xz).[nval - 2]))
    = Ok (edges xz) /\
    np.sub (np.roll (edges xz) (-1)) (edges xz) = Ok d /\
    np.getslice d None (Some nval) = widths (edges xz).
Proof.
  intros H nval xz.
  assert (Hxz : np.len xz = nval) by apply len_mul_scalar.
  assert (Hm : np.len (midpoints xz) = (nval - 1)%Z)
    by (rewrite len_midpoints; lia).
  destruct (ebplus_closed xz) as (rolled & Hadd & Hmid); [lia|].
  rewrite Hxz in Hmid.
  destruct (ebounds_filled (np.empty g (nval + 1)) (midpoints xz)
              (xz.[0] - ((midpoints xz).[0] - xz.[0]))
              (xz.[nval - 1] + (xz.[nval - 1] - (midpoints xz).[nval - 2])))
    as (e1 & e2 & Hs & H0 & Hn).
  { rewrite empty_length. unfold np.len in Hm. lia. }
  replace (np.len (midpoints xz) + 1)%Z with nval in Hs, Hn by lia.
  destruct (binsize_closed (edges xz)) as (d & Hsub & Hw).
  { rewrite len_edges; lia. }
  rewrite len_edges in Hw by lia.
  replace (np.len xz + 1 - 1)%Z with nval in Hw by lia.
  exists rolled, e1, e2, d. cbv zeta. rewrite Hmid.
  repeat match goal with |- _ /\ _ => split end; auto.
  - apply getitem_in. lia.
  - apply getitem_in. lia.
  - apply getitem_in. lia.
  - apply getitem_in. lia.
  - rewrite Hn, edges_unfold, Hxz. reflexivity.
Qed.

End Running.

Ltac step := erewrite bind_lift_ok; [|eassumption].

Ltac run_construction E x z H :=
  let rolled := fresh "rolled" in
  let e1 := fresh "e1" in
  let e2 := fresh "e2" in
  let d := fresh "d" in
  destruct (construction_steps (garbage E) x z H)
    as (rolled & e1 & e2 & d & ? & ? & ? & ? & ? & ? & ? & ? & ? & ? & ?);
  cbv zeta in *;
  do 11 step.

Ltac run_session :=
  match goal with
  | Hw : np.getslice _ None (Some _) = widths _ |- _ => rewrite Hw
  end;
  unfold outcome, session_calls, APEC_elements, VAPEC_elements, bind,
    invoke, emit, return_spectrum, lift, ret;
  cbn [self log];
  rewrite <- !app_assoc; cbn [app];
  match goal with
  | |- context [np.div ?s ?b] => destruct (np.div s b); reflexivity
  end.

Section RunningEvaluate.

Variable E : Env.

Lemma APEC_evaluate_run (x : array) (K kT abund z : R) (w : World)
  (sess : nat) :
  session (self w) = Value sess -> (2 <= np.len x)%Z ->
  APEC.evaluate E x K kT abund z w
  = outcome E APEC_elements x K kT abund z w sess.
Proof.
  intros Hs H. unfold APEC.evaluate.
  rewrite (bind_getattr_value _ _ _ _ Hs). cbv zeta.
  run_construction E x z H. run_session.
Qed.

Lemma VAPEC_evaluate_run (x : array) (K kT abund z : R) (w : World)
  (sess : nat) :
  session (self w) = Value sess -> (2 <= np.len x)%Z ->
  VAPEC.evaluate E x K kT abund z w
  = outcome E VAPEC_elements x K kT abund z w sess.
Proof.
  intros Hs H. unfold VAPEC.evaluate.
  rewrite (bind_getattr_value _ _ _ _ Hs). cbv zeta.
  run_construction E x z H. run_session.
Qed.

End RunningEvaluate.

(** * The claims on the bin edges *)

Section BinEdgeClaims.

Lemma passes_edges (E : Env) (x : array) (K kT abund z : R) (w : World)
  (sess : nat) :
  session (self w) = Value sess -> (2 <= np.len x)%Z ->
  passes_ebounds E x K kT abund z w sess (edges (np.mul_scalar x (1 + z))).
Proof.
  intros Hs H. unfold passes_ebounds.
  rewrite (APEC_evaluate_run E x K kT abund z w sess Hs H).
  rewrite (VAPEC_evaluate_run E x K kT abund z w sess Hs H).
  split; reflexivity.
Qed.

Lemma edges_formula (x : array) (z : R) :
  (2 <= np.len x)%Z ->
  bin_edge_formula x z (edges (np.mul_scalar x (1 + z))).
Proof.
  intros H. unfold bin_edge_formula. cbv zeta.
  set (xz := np.mul_scalar x (1 + z)).
  assert (Hxz : np.len xz = np.len x) by apply len_mul_scalar.
  rewrite <- Hxz in *.
  assert (H1 : (edges xz).[1] = (midpoints xz).[0]).
  { rewrite edges_at_inner by lia. reflexivity. }
  assert (Hl : (edges xz).[np.len xz - 1] = (midpoints xz).[np.len xz - 2]).
  { rewrite edges_at_inner by lia. f_equal. lia. }
  split; [apply len_edges; lia|]. split; [|split].
  - intros i Hi. rewrite edges_at_inner, midpoints_at by lia.
    replace (i - 1 + 1)%Z with i by lia. lra.
  - rewrite edges_at_first, H1. lra.
  - rewrite edges_at_last, Hl by lia. lra.
Qed.

(** C1. For a grid [x] of [n >= 2] centres and a redshift [z], APEC.evaluate
    and, identically, VAPEC.evaluate hand to [set_response(ebounds, raw=True)]
    an array [ebounds] of [n + 1] values with
    [ebounds[i] = (xz[i-1] + xz[i]) / 2] for [1 <= i <= n - 1],
    [ebounds[0] = 2 * xz[0] - ebounds[1]] and
    [ebounds[n] = 2 * xz[n-1] - ebounds[n-1]], where [xz = x * (1 + z)]. *)
Theorem C1_bin_edges_from_grid (E : Env) (x : array) (K kT abund z : R)
  (w : World) (sess : nat) :
  session (self w) = Value sess ->
  (2 <= np.len x)%Z ->
  exists ebounds : array,
    passes_ebounds E x K kT abund z w sess ebounds /\
    bin_edge_formula x z ebounds.
Proof.
  intros Hs H. exists (edges (np.mul_scalar x (1 + z))). split.
  - now apply passes_edges.
  - now apply edges_formula.
Qed.

Lemma C1_bin_edges_from_grid_witness :
  exists ebounds : array,
    passes_ebounds Sample.E Sample.x 1 1 1 0 Sample.w 0 ebounds /\
    bin_edge_formula Sample.x 0 ebounds.
Proof.
  apply (C1_bin_edges_from_grid Sample.E Sample.x 1 1 1 0 Sample.w 0).
  - reflexivity.
  - unfold Sample.x, np.len. simpl. lia.
Defined.

End BinEdgeClaims.

Section Bracketing.

Lemma mul_scalar_at (x : array) (c : R) (i : Z) :
  (0 <= i < np.len x)%Z -> (np.mul_scalar x c).[i] = x.[i] * c.
Proof.
  unfold np.len, at_, np.mul_scalar. intros H.
  rewrite (nth_indep _ 0 (0 * c)) by (rewrite length_map; lia).
  apply (map_nth (fun v => v * c)).
Qed.







End Bracketing.

Section Homogeneity.

Lemma nth_mul_scalar (x : array) (c : R) (k : nat) :
  nth k (np.mul_scalar x c) 0 = nth k x 0 * c.
Proof.
  unfold np.mul_scalar.
  transitivity (nth k (map (fun v => v * c) x) (0 * c)).
  - f_equal. ring.
  - apply (map_nth (fun v => v * c)).
Qed.

Lemma nth_scalar_mul (c : R) (x : array) (k : nat) :
  nth k (np.scalar_mul c x) 0 = c * nth k x 0.
Proof.
  unfold np.scalar_mul.
  transitivity (nth k (map (fun v => c * v) x) (c * 0)).
  - f_equal. ring.
  - apply (map_nth (fun v => c * v)).
Qed.

Lemma midpoints_step (a b : R) (t : array) :
  midpoints (a :: b :: t) = (b + a) / 2 :: midpoints (b :: t).
Proof. reflexivity. Qed.

Lemma midpoints_scale (x : array) (c : R) :
  midpoints (np.mul_scalar x c) = np.scalar_mul c (midpoints x).
Proof.
  induction x as [|a x IH]; [reflexivity|].
  destruct x as [|b t]; [reflexivity|].
  change (np.mul_scalar (a :: b :: t) c)
    with (a * c :: b * c :: np.mul_scalar t c).
  rewrite !midpoints_step.
  change (b * c :: np.mul_scalar t c) with (np.mul_scalar (b :: t) c).
  rewrite IH. cbn [np.scalar_mul map]. f_equal. field.
Qed.

Lemma edges_scale (x : array) (c : R) :
  edges (np.mul_scalar x c) = np.scalar_mul c (edges x).
Proof.
  unfold edges. cbv zeta. rewrite midpoints_scale.
  rewrite !nth_mul_scalar, !nth_scalar_mul.
  replace (length (np.mul_scalar x c)) with (length x)
    by (unfold np.mul_scalar; now rewrite length_map).
  unfold np.scalar_mul. cbn [map]. rewrite map_app. cbn [map].
  f_equal; [ring|]. f_equal. f_equal. ring.
Qed.

Lemma mul_scalar_one (x : array) : np.mul_scalar x (1 + 0) = x.
Proof.
  unfold np.mul_scalar. rewrite <- (map_id x) at 2.
  apply map_ext. intros v. ring.
Qed.

(** C10. The construction is homogeneous in the redshift factor: for a
    grid [x] of at least two centres, the [ebounds] built at redshift [z]
    is [(1 + z)] times the one built for [x] at redshift 0, and is the
    one built at redshift 0 for the grid [x * (1 + z)]. *)
Theorem C10_edges_homogeneous (E : Env) (x : array) (K kT abund z : R)
  (w : World) (sess : nat) :
  session (self w) = Value sess ->
  (2 <= np.len x)%Z ->
  exists ebounds ebounds0 : array,
    passes_ebounds E x K kT abund z w sess ebounds /\
    passes_ebounds E x K kT abund 0 w sess ebounds0 /\
    passes_ebounds E (np.mul_scalar x (1 + z)) K kT abund 0 w sess ebounds /\
    ebounds = np.scalar_mul (1 + z) ebounds0.
Proof.
  intros Hs H.
  exists (edges (np.mul_scalar x (1 + z))), (edges (np.mul_scalar x (1 + 0))).
  split; [now apply passes_edges|]. split; [now apply passes_edges|]. split.
  - rewrite <- (mul_scalar_one (np.mul_scalar x (1 + z))) at 2.
    apply passes_edges; [assumption|]. now rewrite len_mul_scalar.
  - now rewrite mul_scalar_one, edges_scale.
Qed.

Lemma C10_edges_homogeneous_witness :
  exists ebounds ebounds0 : array,
    passes_ebounds Sample.E Sample.x 1 1 1 2 Sample.w 0 ebounds /\
    passes_ebounds Sample.E Sample.x 1 1 1 0 Sample.w 0 ebounds0 /\
    passes_ebounds Sample.E (np.mul_scalar Sample.x (1 + 2)) 1 1 1 0
      Sample.w 0 ebounds /\
    ebounds = np.scalar_mul (1 + 2) ebounds0.
Proof.
  apply (C10_edges_homogeneous Sample.E Sample.x 1 1 1 2 Sample.w 0).
  - reflexivity.
  - unfold Sample.x, np.len. simpl. lia.
Defined.

End Homogeneity.

(** * What an evaluation leaves behind *)

Create HintDb frame.

Section Frame.

Lemma keeps_self_bind {A B : Type} (m : M A) (k : A -> M B) :
  keeps_self m -> (forall a, keeps_self (k a)) -> keeps_self (bind m k).
Proof.
  intros Hm Hk w. unfold bind. specialize (Hm w).
  destruct (m w) as [[a|e] w']; cbn [snd] in *.
  - now rewrite Hk.
  - assumption.
Qed.

Lemma keeps_self_lift {A : Type} (r : result A) : keeps_self (lift r).
Proof. intros w. reflexivity. Qed.

Lemma keeps_self_ret {A : Type} (a : A) : keeps_self (ret a).
Proof. intros w. reflexivity. Qed.

Lemma keeps_self_raise {A : Type} (e : exn) : keeps_self (@raise A e).
Proof. intros w. reflexivity. Qed.

Lemma keeps_self_getattr {A : Type} (a : Instance -> attr A) :
  keeps_self (getattr a).
Proof. intros w. unfold getattr. now destruct (a (self w)). Qed.

Lemma keeps_self_emit (e : event) : keeps_self (emit e).
Proof. intros w. reflexivity. Qed.

Lemma keeps_self_invoke (sess : option nat) (c : call) :
  keeps_self (invoke sess c).
Proof. destruct sess; intros w; reflexivity. Qed.

Lemma keeps_self_return_spectrum (E : Env) (sess : option nat) (kT : R) :
  keeps_self (return_spectrum E sess kT).
Proof. destruct sess; intros w; reflexivity. Qed.

Lemma silent_bind {A B : Type} (m : M A) (k : A -> M B) :
  silent m -> (forall a, silent (k a)) -> silent (bind m k).
Proof.
  intros Hm Hk w. unfold bind. specialize (Hm w).
  destruct (m w) as [[a|e] w']; cbn [snd] in *; subst w'.
  - apply Hk.
  - reflexivity.
Qed.

Lemma silent_lift {A : Type} (r : result A) : silent (lift r).
Proof. intros w. reflexivity. Qed.

Lemma silent_ret {A : Type} (a : A) : silent (ret a).
Proof. intros w. reflexivity. Qed.

Lemma silent_raise {A : Type} (e : exn) : silent (@raise A e).
Proof. intros w. reflexivity. Qed.

Lemma silent_getattr {A : Type} (a : Instance -> attr A) :
  silent (getattr a).
Proof. intros w. unfold getattr. now destruct (a (self w)). Qed.

Lemma silent_assert_xsect_loaded : silent assert_xsect_loaded.
Proof.
  unfold assert_xsect_loaded. apply silent_bind; [apply silent_getattr|].
  intros [v|]; [|apply silent_raise].
  apply silent_bind; [apply silent_getattr|].
  intros [u|]; [apply silent_ret|apply silent_raise].
Qed.

End Frame.

#[export] Hint Resolve keeps_self_lift keeps_self_ret keeps_self_raise
  keeps_self_getattr keeps_self_emit keeps_self_invoke
  keeps_self_return_spectrum : frame.
#[export] Hint Resolve silent_lift silent_ret silent_raise silent_getattr
  silent_assert_xsect_loaded : frame.

Ltac frame :=
  repeat first
    [ solve [auto with frame]
    | apply keeps_self_bind; [|intro]
    | apply silent_bind; [|intro] ].

Section NoPersistedState.

Lemma APEC_evaluate_keeps_self (E : Env) (x : array) (K kT abund z : R) :
  keeps_self (APEC.evaluate E x K kT abund z).
Proof. unfold APEC.evaluate. cbv zeta. frame. Qed.

Lemma VAPEC_evaluate_keeps_self (E : Env) (x : array) (K kT abund z : R) :
  keeps_self (VAPEC.evaluate E x K kT abund z).
Proof. unfold VAPEC.evaluate. cbv zeta. frame. Qed.

(** C6. An evaluation assigns no attribute of the instance, whatever its
    arguments and however it ends; the bin edges it builds are a function
    of [x] and [redshift] alone, so the same array is built from any
    world, with any other arguments, and in particular by a second call
    that follows the first. *)
Theorem C6_no_persisted_edges (x : array) (z : R) :
  (forall (E : Env) (K kT abund : R) (w : World),
     self (snd (APEC.evaluate E x K kT abund z w)) = self w /\
     self (snd (VAPEC.evaluate E x K kT abund z w)) = self w) /\
  ((2 <= np.len x)%Z ->
   exists ebounds : array,
     forall (E : Env) (K kT abund : R) (w : World) (sess : nat),
       session (self w) = Value sess ->
       passes_ebounds E x K kT abund z w sess ebounds /\
       passes_ebounds E x K kT abund z
         (snd (APEC.evaluate E x K kT abund z w)) sess ebounds /\
       passes_ebounds E x K kT abund z
         (snd (VAPEC.evaluate E x K kT abund z w)) sess ebounds).
Proof.
  split.
  - intros E K kT abund w. split.
    + apply APEC_evaluate_keeps_self.
    + apply VAPEC_evaluate_keeps_self.
  - intros H. exists (edges (np.mul_scalar x (1 + z))).
    intros E K kT abund w sess Hs.
    split; [|split]; apply passes_edges; try assumption.
    + now rewrite APEC_evaluate_keeps_self.
    + now rewrite VAPEC_evaluate_keeps_self.
Qed.

End NoPersistedState.

Lemma C6_no_persisted_edges_witness :
  exists ebounds : array,
    passes_ebounds Sample.E Sample.x 1 1 1 0 Sample.w 0 ebounds /\
    passes_ebounds Sample.E Sample.x 1 1 1 0
      (snd (APEC.evaluate Sample.E Sample.x 1 1 1 0 Sample.w)) 0 ebounds.
Proof.
  destruct (C6_no_persisted_edges Sample.x 0) as [_ H].
  destruct H as [ebounds H].
  - unfold Sample.x, np.len. simpl. lia.
  - exists ebounds.
    destruct (H Sample.E 1 1 1 Sample.w 0%nat eq_refl) as (H1 & H2 & _).
    split; assumption.
Defined.

(** * Grids that are too short *)

Section ShortGrids.

Variable E : Env.

Lemma bind_getattr_none {A B : Type} (a : Instance -> attr A)
  (k : option A -> M B) (w : World) :
  a (self w) = PyNone -> bind (getattr a) k w = k None w.
Proof. intros H. unfold bind, getattr. now rewrite H. Qed.

Lemma short_cases (x : array) :
  (np.len x < 2)%Z -> x = [] \/ exists v, x = [v].
Proof.
  destruct x as [|v [|u t]]; intros H.
  - now left.
  - right. now exists v.
  - rewrite !len_cons in H. pose proof (len_nonneg t). lia.
Qed.

Lemma APEC_evaluate_short (x : array) (K kT abund z : R) (w : World) :
  (np.len x < 2)%Z -> session (self w) <> Absent ->
  APEC.evaluate E x K kT abund z w = (Err IndexError, w).
Proof.
  intros H Hs. unfold APEC.evaluate, bind at 1, getattr.
  destruct (session (self w)); [contradiction| |];
    destruct (short_cases x H) as [->|[v ->]]; reflexivity.
Qed.

Lemma VAPEC_evaluate_short (x : array) (K kT abund z : R) (w : World) :
  (np.len x < 2)%Z -> session (self w) <> Absent ->
  VAPEC.evaluate E x K kT abund z w = (Err IndexError, w).
Proof.
  intros H Hs. unfold VAPEC.evaluate, bind at 1, getattr.
  destruct (session (self w)); [contradiction| |];
    destruct (short_cases x H) as [->|[v ->]]; reflexivity.
Qed.

Lemma APEC_evaluate_no_session (x : array) (K kT abund z : R) (w : World) :
  session (self w) = PyNone -> (2 <= np.len x)%Z ->
  APEC.evaluate E x K kT abund z w = (Err AttributeError, w).
Proof.
  intros Hs H. unfold APEC.evaluate.
  rewrite (bind_getattr_none _ _ _ Hs). cbv zeta.
  run_construction E x z H. reflexivity.
Qed.

Lemma VAPEC_evaluate_no_session (x : array) (K kT abund z : R) (w : World) :
  session (self w) = PyNone -> (2 <= np.len x)%Z ->
  VAPEC.evaluate E x K kT abund z w = (Err AttributeError, w).
Proof.
  intros Hs H. unfold VAPEC.evaluate.
  rewrite (bind_getattr_none _ _ _ Hs). cbv zeta.
  run_construction E x z H. reflexivity.
Qed.

Lemma elementwise_error (f : R -> R -> R) (a b : array) (e : exn) :
  np.elementwise f a b = Err e -> e = ValueError.
Proof.
  unfold np.elementwise.
  destruct (Nat.eqb (length a) (length b)); [discriminate|].
  destruct (Nat.eqb (length b) 1); [discriminate|].
  destruct (Nat.eqb (length a) 1); [discriminate|].
  now intros [= <-].
Qed.

Lemma outcome_not_index_error (elements : list Z) (x : array)
  (K kT abund z : R) (w : World) (sess : nat) :
  fst (outcome E elements x K kT abund z w sess) <> Err IndexError.
Proof.
  unfold outcome. cbv zeta. cbn [fst].
  destruct (np.div _ _) as [q|e] eqn:Hd; [discriminate|].
  apply elementwise_error in Hd. subst e. discriminate.
Qed.

Lemma ebplus_short (x : array) (z : R) :
  (np.len x < 2)%Z -> ebplus x z = Ok [].
Proof.
  intros H. destruct (short_cases x H) as [->|[v ->]]; reflexivity.
Qed.

Lemma ebplus_long (x : array) (z : R) :
  (2 <= np.len x)%Z -> ebplus x z = Ok (midpoints (np.mul_scalar x (1 + z))).
Proof.
  intros H. unfold ebplus. cbv zeta.
  destruct (ebplus_closed (np.mul_scalar x (1 + z))) as (r & Hadd & Hm).
  { rewrite len_mul_scalar. lia. }
  rewrite len_mul_scalar in Hm. now rewrite Hadd, Hm.
Qed.

End ShortGrids.

(** C8. The construction needs at least two centres.  On a grid of 0 or
    1 centres [ebplus] is empty, the reads [ebplus[0]] and
    [ebplus[nval-2]] are out of bounds and the evaluation ends in
    IndexError before any session call; on a grid of two or more centres
    every read and write of the construction is in bounds, so the
    evaluation does not end in IndexError. *)
Theorem C8_needs_two_centres (E : Env) (x : array) (K kT abund z : R)
  (w : World) :
  session (self w) <> Absent ->
  let n := np.len x in
  let xz := np.mul_scalar x (1 + z) in
  ((n < 2)%Z ->
   (exists eb : array,
      ebplus x z = Ok eb /\
      eb = [] /\
      np.getitem eb 0 = Err IndexError /\
      np.getitem eb (n - 2) = Err IndexError) /\
   APEC.evaluate E x K kT abund z w = (Err IndexError, w) /\
   VAPEC.evaluate E x K kT abund z w = (Err IndexError, w)) /\
  ((2 <= n)%Z ->
   (exists eb : array,
      ebplus x z = Ok eb /\
      np.len eb = (n - 1)%Z /\
      np.getitem eb 0 = Ok eb.[0] /\
      np.getitem eb (n - 2) = Ok eb.[n - 2]) /\
   np.getitem xz 0 = Ok xz.[0] /\
   np.getitem xz (n - 1) = Ok xz.[n - 1] /\
   fst (APEC.evaluate E x K kT abund z w) <> Err IndexError /\
   fst (VAPEC.evaluate E x K kT abund z w) <> Err IndexError).
Proof.
  intros Hs n xz. split; intros H.
  - split; [|split].
    + exists []. split; [now apply ebplus_short|]. split; [reflexivity|].
      split; apply getitem_empty.
    + now apply APEC_evaluate_short.
    + now apply VAPEC_evaluate_short.
  - assert (Hxz : np.len xz = n) by apply len_mul_scalar.
    assert (Hm : np.len (midpoints xz) = (n - 1)%Z)
      by (rewrite len_midpoints; lia).
    split; [|split; [|split; [|split]]].
    + exists (midpoints xz). split; [now apply ebplus_long|].
      split; [assumption|]. split; apply getitem_in; lia.
    + apply getitem_in. lia.
    + apply getitem_in. lia.
    + destruct (session (self w)) as [| |sess] eqn:Hv; [contradiction| |].
      * rewrite APEC_evaluate_no_session by assumption. discriminate.
      * rewrite (APEC_evaluate_run E x K kT abund z w sess Hv H).
        apply outcome_not_index_error.
    + destruct (session (self w)) as [| |sess] eqn:Hv; [contradiction| |].
      * rewrite VAPEC_evaluate_no_session by assumption. discriminate.
      * rewrite (VAPEC_evaluate_run E x K kT abund z w sess Hv H).
        apply outcome_not_index_error.
Qed.

Lemma C8_needs_two_centres_witness :
  APEC.evaluate Sample.E [5] 1 1 1 0 Sample.w = (Err IndexError, Sample.w) /\
  fst (APEC.evaluate Sample.E Sample.x 1 1 1 0 Sample.w) <> Err IndexError.
Proof.
  split.
  - destruct (C8_needs_two_centres Sample.E [5] 1 1 1 0 Sample.w)
      as [H _]; [discriminate|].
    destruct H as (_ & H & _); [unfold np.len; simpl; lia|exact H].
  - destruct (C8_needs_two_centres Sample.E Sample.x 1 1 1 0 Sample.w)
      as [_ H]; [discriminate|].
    destruct H as (_ & _ & _ & H & _);
      [unfold Sample.x, np.len; simpl; lia|exact H].
Defined.

(** * The value an evaluation returns *)

Section ReturnedSpectrum.

Variable E : Env.

Lemma map_at (f : R -> R) (a : array) (i : Z) :
  (0 <= i < np.len a)%Z -> (map f a).[i] = f a.[i].
Proof.
  unfold np.len, at_. intros H.
  rewrite (nth_indep _ 0 (f 0)) by (rewrite length_map; lia).
  apply map_nth.
Qed.

Lemma zip_with_at (f : R -> R -> R) (a b : array) (i : Z) :
  (0 <= i < np.len a)%Z -> (0 <= i < np.len b)%Z ->
  (np.zip_with f a b).[i] = f a.[i] b.[i].
Proof.
  unfold np.len, at_. intros Ha Hb. apply zip_with_nth; lia.
Qed.

Lemma outcome_scaled (elements : list Z) (x : array) (K kT abund z : R)
  (w : World) (sess : nat) :
  (2 <= np.len x)%Z ->
  let eb := edges (np.mul_scalar x (1 + z)) in
  let s := spectrum_after E w sess elements eb abund kT in
  np.len s = np.len x ->
  exists result : array,
    fst (outcome E elements x K kT abund z w sess) = Ok result /\
    scaled_spectrum K s eb result.
Proof.
  intros H eb s Hlen.
  assert (Heb : np.len eb = (np.len x + 1)%Z).
  { unfold eb. rewrite len_edges; rewrite len_mul_scalar; lia. }
  assert (Hw : np.len (widths eb) = np.len x).
  { unfold np.len in *. rewrite widths_length. lia. }
  exists (np.scalar_mul K (np.div_scalar (np.zip_with Rdiv s (widths eb)) 1e-14)).
  split.
  - unfold outcome. cbv zeta. cbn [fst].
    fold eb. fold (spectrum_after E w sess elements eb abund kT). fold s.
    unfold np.div. rewrite elementwise_same; [reflexivity|].
    unfold np.len in *. lia.
  - assert (Hz : np.len (np.zip_with Rdiv s (widths eb)) = np.len s).
    { unfold np.len in *. rewrite zip_with_length. lia. }
    split.
    + unfold np.scalar_mul, np.div_scalar, np.len in *.
      now rewrite !length_map.
    + intros i Hi. unfold np.scalar_mul, np.div_scalar.
      rewrite map_at by (unfold np.len in *; rewrite length_map; lia).
      rewrite map_at by lia.
      rewrite zip_with_at, widths_at by lia.
      unfold Rdiv. ring.
Qed.

End ReturnedSpectrum.

(** C4. On a grid of [n >= 2] centres APEC.evaluate, and VAPEC.evaluate
    with its own element list, returns [K * s[i] / binsize[i] / 1e-14] for
    [0 <= i <= n - 1], where [s], of [n] values, is what the session's
    [return_spectrum(kT)] gives after [set_response(ebounds, raw=True)]
    and [set_abund(elements, abund)], and
    [binsize[i] = ebounds[i+1] - ebounds[i]]. *)
Theorem C4_returns_scaled_spectrum (E : Env) (x : array) (K kT abund z : R)
  (w : World) (sess : nat) :
  session (self w) = Value sess ->
  (2 <= np.len x)%Z ->
  exists ebounds : array,
    passes_ebounds E x K kT abund z w sess ebounds /\
    (let s := spectrum_after E w sess APEC_elements ebounds abund kT in
     np.len s = np.len x ->
     exists result : array,
       fst (APEC.evaluate E x K kT abund z w) = Ok result /\
       scaled_spectrum K s ebounds result) /\
    (let s := spectrum_after E w sess VAPEC_elements ebounds abund kT in
     np.len s = np.len x ->
     exists result : array,
       fst (VAPEC.evaluate E x K kT abund z w) = Ok result /\
       scaled_spectrum K s ebounds result).
Proof.
  intros Hs H. exists (edges (np.mul_scalar x (1 + z))).
  split; [now apply passes_edges|]. split.
  - rewrite (APEC_evaluate_run E x K kT abund z w sess Hs H).
    now apply outcome_scaled.
  - rewrite (VAPEC_evaluate_run E x K kT abund z w sess Hs H).
    now apply outcome_scaled.
Qed.

Lemma C4_returns_scaled_spectrum_witness :
  exists ebounds result : array,
    passes_ebounds Sample.E Sample.x 2 1 1 0 Sample.w 0 ebounds /\
    fst (APEC.evaluate Sample.E Sample.x 2 1 1 0 Sample.w) = Ok result /\
    scaled_spectrum 2 [10; 20; 30] ebounds result.
Proof.
  destruct (C4_returns_scaled_spectrum Sample.E Sample.x 2 1 1 0 Sample.w 0)
    as (ebounds & Hp & HA & _).
  - reflexivity.
  - unfold Sample.x, np.len. simpl. lia.
  - destruct HA as (result & Hr & Hs); [reflexivity|].
    exists ebounds, result. split; [exact Hp|]. split; [exact Hr|exact Hs].
Defined.

(** * Interpolation in the cross-section table *)

Section Interpolation.

Lemma at_cons_succ (a : R) (t : array) (i : Z) :
  (0 <= i)%Z -> (a :: t).[i + 1] = t.[i].
Proof.
  intros H. unfold at_.
  replace (Z.to_nat (i + 1)) with (S (Z.to_nat i)) by lia. reflexivity.
Qed.

Lemma increasing_tail (a : R) (t : array) :
  increasing (a :: t) -> increasing t.
Proof.
  intros H i H0 H1.
  rewrite <- (at_cons_succ a t i), <- (at_cons_succ a t (i + 1)) by lia.
  apply H; [lia|]. rewrite len_cons. lia.
Qed.

Lemma increasing_sorted (l : array) : increasing l -> StronglySorted Rlt l.
Proof.
  intros H. apply Sorted_StronglySorted.
  - intros u v t'. apply Rlt_trans.
  - induction l as [|a t IH]; constructor.
    + apply IH. now apply increasing_tail in H.
    + destruct t as [|b t']; constructor.
      apply (H 0%Z); [lia|]. rewrite !len_cons.
      pose proof (len_nonneg t'). lia.
Qed.

Lemma sorted_head_least (a : R) (t : array) (k : nat) :
  StronglySorted Rlt (a :: t) -> (k < length (a :: t))%nat ->
  a <= nth k (a :: t) 0.
Proof.
  intros H Hk. apply StronglySorted_inv in H as [_ H].
  destruct k as [|k]; [apply Rle_refl|].
  cbn [nth length] in *. apply Rlt_le.
  rewrite Forall_forall in H. apply H, nth_In. lia.
Qed.

Lemma locate_step (xi x0 x1 f0 f1 : R) (t ft : array) :
  np.locate xi (x0 :: x1 :: t) (f0 :: f1 :: ft)
  = if Rlt_dec xi x1
    then (f1 - f0) / (x1 - x0) * (xi - x0) + f0
    else np.locate xi (x1 :: t) (f1 :: ft).
Proof. reflexivity. Qed.

Lemma locate_chord (xi : R) (xp fp : array) (j : nat) :
  length fp = length xp -> (S j < length xp)%nat ->
  StronglySorted Rlt xp ->
  nth j xp 0 <= xi < nth (S j) xp 0 ->
  np.locate xi xp fp
  = (nth (S j) fp 0 - nth j fp 0) / (nth (S j) xp 0 - nth j xp 0)
    * (xi - nth j xp 0)
    + nth j fp 0.
Proof.
  revert fp j. induction xp as [|x0 xp' IH]; intros fp j Hl Hj Hs Hxi.
  - cbn in Hj. lia.
  - destruct xp' as [|x1 t]; [cbn in Hj; lia|].
    destruct fp as [|f0 [|f1 ft]]; try discriminate.
    rewrite locate_step.
    destruct j as [|j].
    + cbn [nth] in *. destruct (Rlt_dec xi x1); [reflexivity|lra].
    + assert (Hs' : StronglySorted Rlt (x1 :: t))
        by (now apply StronglySorted_inv in Hs).
      change (nth (S j) (x0 :: x1 :: t) 0) with (nth j (x1 :: t) 0) in *.
      change (nth (S (S j)) (x0 :: x1 :: t) 0)
        with (nth (S j) (x1 :: t) 0) in *.
      change (nth (S j) (f0 :: f1 :: ft) 0) with (nth j (f1 :: ft) 0).
      change (nth (S (S j)) (f0 :: f1 :: ft) 0)
        with (nth (S j) (f1 :: ft) 0).
      pose proof (sorted_head_least x1 t j Hs') as Hle.
      cbn [length] in Hj, Hl, Hle.
      destruct (Rlt_dec xi x1) as [Hlt|_].
      * specialize (Hle ltac:(lia)). lra.
      * apply IH; cbn [length]; try assumption; lia.
Qed.

Lemma locate_right (xi : R) (xp fp : array) :
  length fp = length xp -> (1 <= length xp)%nat ->
  StronglySorted Rlt xp ->
  nth (length xp - 1) xp 0 <= xi ->
  np.locate xi xp fp = nth (length xp - 1) fp 0.
Proof.
  revert fp. induction xp as [|x0 xp' IH]; intros fp Hl Hn Hs Hxi.
  - cbn in Hn. lia.
  - destruct xp' as [|x1 t].
    + destruct fp as [|f0 [|f1 ft]]; try discriminate. reflexivity.
    + destruct fp as [|f0 [|f1 ft]]; try discriminate.
      assert (Hs' : StronglySorted Rlt (x1 :: t))
        by (now apply StronglySorted_inv in Hs).
      rewrite locate_step.
      replace (length (x0 :: x1 :: t) - 1)%nat
        with (S (length (x1 :: t) - 1)) in * by (cbn [length]; lia).
      change (nth (S ?k) (x0 :: x1 :: t) 0) with (nth k (x1 :: t) 0) in Hxi.
      change (nth (S ?k) (f0 :: f1 :: ft) 0) with (nth k (f1 :: ft) 0).
      pose proof (sorted_head_least x1 t (length (x1 :: t) - 1) Hs'
                    ltac:(cbn [length]; lia)) as Hle.
      destruct (Rlt_dec xi x1) as [Hlt|_]; [lra|].
      cbn [length] in Hl. apply IH; cbn [length]; try assumption; lia.
Qed.

Lemma at_zero_hd (a : array) : a.[0] = hd 0 a.
Proof. now destruct a. Qed.

Lemma interp1_piecewise_linear (xp fp : array) :
  increasing xp -> (1 <= np.len xp)%Z -> np.len fp = np.len xp ->
  piecewise_linear xp fp (fun xi => np.interp1 xi xp fp).
Proof.
  intros Hinc Hn Hl. pose proof (increasing_sorted xp Hinc) as Hs.
  assert (Hl' : length fp = length xp) by (unfold np.len in Hl; lia).
  assert (Hfirst : forall k, (k < length xp)%nat -> hd 0 xp <= nth k xp 0).
  { intros k Hk. destruct xp as [|a t]; [cbn in Hk; lia|].
    now apply sorted_head_least. }
  unfold piecewise_linear. cbv zeta. split; [|split].
  - intros xi Hxi. unfold np.interp1. rewrite at_zero_hd in Hxi.
    destruct (Rlt_dec xi (hd 0 xp)); [symmetry; apply at_zero_hd|lra].
  - intros xi Hxi. unfold np.interp1, at_, np.len in *.
    replace (Z.to_nat (Z.of_nat (length xp) - 1)) with (length xp - 1)%nat
      in * by lia.
    specialize (Hfirst (length xp - 1)%nat ltac:(lia)).
    destruct (Rlt_dec xi (hd 0 xp)); [lra|].
    apply locate_right; try assumption; lia.
  - intros xi j Hj0 Hj1 Hxi. unfold np.interp1, at_, np.len in *.
    replace (Z.to_nat (j + 1)) with (S (Z.to_nat j)) in * by lia.
    specialize (Hfirst (Z.to_nat j) ltac:(lia)).
    destruct (Rlt_dec xi (hd 0 xp)); [lra|].
    apply locate_chord; try assumption; lia.
Qed.

End Interpolation.

(** * Loading the cross-section table *)

Section Loading.

Variable E : Env.

Lemma PhAbs_init_xsect_run (t : string) (w : World) :
  PhAbs.init_xsect E t w
  = read_columns (fits_files E (PhAbs_selected E t))
      (mkWorld (self w)
         (log w ++ PhAbs_printed t ++ [FitsOpen (PhAbs_selected E t)])).
Proof.
  unfold PhAbs.init_xsect, PhAbs_selected, PhAbs_printed, read_columns,
    path_to_xsect. cbv zeta.
  destruct (String.eqb t "AG89"); [reflexivity|].
  destruct (String.eqb t "ASPL"); [reflexivity|].
  unfold bind at 1. unfold bind at 1. unfold print, fits_open, bind at 1, emit.
  cbn [self log]. unfold bind at 1, lift at 1. cbn [self log].
  rewrite <- app_assoc. reflexivity.
Qed.

Lemma TbAbs_init_xsect_run (t : string) (w : World) :
  TbAbs.init_xsect E t w
  = read_columns (fits_files E (TbAbs_selected E t))
      (mkWorld (self w)
         (log w ++ TbAbs_printed t ++ [FitsOpen (TbAbs_selected E t)])).
Proof.
  unfold TbAbs.init_xsect, TbAbs_selected, TbAbs_printed, read_columns,
    path_to_xsect. cbv zeta.
  destruct (String.eqb t "AG89"); [reflexivity|].
  destruct (String.eqb t "ASPL"); [reflexivity|].
  destruct (String.eqb t "WILM"); [reflexivity|].
  unfold bind at 1. unfold bind at 1. unfold print, fits_open, bind at 1, emit.
  cbn [self log]. unfold bind at 1, lift at 1. cbn [self log].
  rewrite <- app_assoc. reflexivity.
Qed.

Lemma read_columns_log (r : result HDUList) (w : World) :
  log (snd (read_columns r w)) = log w.
Proof.
  unfold read_columns, bind, lift, set_xsect_ene, set_xsect_val.
  destruct r as [fxs|e]; [|reflexivity].
  destruct (fits.hdu fxs 1) as [dxs|e]; [|reflexivity].
  destruct (fits.field dxs "ENERGY") as [ene|e]; [|reflexivity].
  cbn [self log].
  destruct (fits.field dxs "SIGMA") as [val|e]; reflexivity.
Qed.

Lemma read_columns_ok (fxs : HDUList) (dxs : option Table) (ene val : array)
  (w : World) :
  fits.hdu fxs 1 = Ok dxs ->
  fits.field dxs "ENERGY" = Ok ene ->
  fits.field dxs "SIGMA" = Ok val ->
  read_columns (Ok fxs) w
  = (Ok tt, mkWorld (mkInstance (session (self w)) (Value ene) (Value val))
                    (log w)).
Proof.
  intros Hh He Hv.
  unfold read_columns, bind, lift, set_xsect_ene, set_xsect_val.
  now rewrite Hh, He, Hv.
Qed.

(** The log is not read: two runs from worlds with the same attributes
    end alike. *)
Lemma read_columns_same_self (r : result HDUList) (w1 w2 : World) :
  self w1 = self w2 ->
  fst (read_columns r w1) = fst (read_columns r w2) /\
  self (snd (read_columns r w1)) = self (snd (read_columns r w2)).
Proof.
  intros H.
  unfold read_columns, bind, lift, set_xsect_ene, set_xsect_val.
  destruct r as [fxs|e]; [|now split].
  destruct (fits.hdu fxs 1) as [dxs|e]; [|now split].
  destruct (fits.field dxs "ENERGY") as [ene|e]; [|now split].
  cbn [self log]. rewrite H.
  destruct (fits.field dxs "SIGMA") as [val|e]; now split.
Qed.

Lemma fits_opened_app (l l' : list event) :
  fits_opened (l ++ l') = (fits_opened l ++ fits_opened l')%list.
Proof.
  induction l as [|[o c|p|s] l IH]; cbn [fits_opened app];
    now rewrite ?IH.
Qed.

Lemma PhAbs_printed_opens_nothing (t : string) :
  fits_opened (PhAbs_printed t) = [].
Proof.
  unfold PhAbs_printed.
  destruct (String.eqb t "AG89"); [reflexivity|].
  now destruct (String.eqb t "ASPL").
Qed.

Lemma TbAbs_printed_opens_nothing (t : string) :
  fits_opened (TbAbs_printed t) = [].
Proof.
  unfold TbAbs_printed.
  destruct (String.eqb t "AG89"); [reflexivity|].
  destruct (String.eqb t "ASPL"); [reflexivity|].
  now destruct (String.eqb t "WILM").
Qed.

Lemma read_columns_loads_once (path : string) (printed : list event)
  (w : World) :
  fits_opened printed = [] ->
  loads_once E w
    (read_columns (fits_files E path)
       (mkWorld (self w) (log w ++ printed ++ [FitsOpen path])))
    path.
Proof.
  intros Hp. split.
  - rewrite read_columns_log. cbn [log].
    now rewrite !fits_opened_app, Hp.
  - intros fxs dxs ene val Hf Hh He Hv.
    rewrite Hf, (read_columns_ok fxs dxs ene val) by assumption.
    repeat split.
Qed.

Lemma PhAbs_init_xsect_loads_once (t : string) (w : World) :
  loads_once E w (PhAbs.init_xsect E t w) (PhAbs_selected E t).
Proof.
  rewrite PhAbs_init_xsect_run.
  apply read_columns_loads_once, PhAbs_printed_opens_nothing.
Qed.

Lemma TbAbs_init_xsect_loads_once (t : string) (w : World) :
  loads_once E w (TbAbs.init_xsect E t w) (TbAbs_selected E t).
Proof.
  rewrite TbAbs_init_xsect_run.
  apply read_columns_loads_once, TbAbs_printed_opens_nothing.
Qed.

Lemma PhAbs_evaluate_silent (x : array) (NH : R) :
  silent (PhAbs.evaluate x NH).
Proof. unfold PhAbs.evaluate. cbv zeta. frame. Qed.

Lemma TbAbs_evaluate_silent (x : array) (NH : R) :
  silent (TbAbs.evaluate x NH).
Proof. unfold TbAbs.evaluate. cbv zeta. frame. Qed.

End Loading.

(** * The claims on the absorption classes *)

Section Absorption.

Lemma PhAbs_evaluate_loaded (x : array) (NH : R) (w : World)
  (ene val : array) :
  xsect_ene (self w) = Value ene ->
  xsect_val (self w) = Value val ->
  (1 <= np.len ene)%Z ->
  np.len val = np.len ene ->
  PhAbs.evaluate x NH w
  = (Ok (map (fun xi => exp (- NH * np.interp1 xi ene val)) x), w).
Proof.
  intros He Hv Hn Hl.
  unfold PhAbs.evaluate, assert_xsect_loaded, bind, getattr, lift, ret,
    as_array, np.interp.
  repeat (rewrite ?He, ?Hv; cbv beta iota).
  destruct (Z.eqb_spec (np.len ene) 0) as [H0|_]; [lia|].
  rewrite Hl, Z.eqb_refl. cbn [negb].
  unfold np.exp, np.scalar_mul. now rewrite !map_map.
Qed.

(** C3. With a table [(xsect_ene, xsect_val)] loaded, PhAbs.evaluate and
    TbAbs.evaluate return [exp(-NH * sigma(x))] elementwise, [sigma]
    being the interpolation of the table that np.interp computes:
    linear between neighbouring points of an increasing table and
    constant beyond its ends; the evaluation changes nothing in the
    world, so it makes no call that leaves the module. *)
Theorem C3_absorption_from_table (x : array) (NH : R) (w : World)
  (ene val : array) :
  xsect_ene (self w) = Value ene ->
  xsect_val (self w) = Value val ->
  (1 <= np.len ene)%Z ->
  np.len val = np.len ene ->
  exists sigma : R -> R,
    (increasing ene -> piecewise_linear ene val sigma) /\
    PhAbs.evaluate x NH w
    = (Ok (map (fun xi => exp (- NH * sigma xi)) x), w) /\
    TbAbs.evaluate x NH w
    = (Ok (map (fun xi => exp (- NH * sigma xi)) x), w).
Proof.
  intros He Hv Hn Hl. exists (fun xi => np.interp1 xi ene val).
  split; [|split].
  - intros Hinc. now apply interp1_piecewise_linear.
  - now apply PhAbs_evaluate_loaded.
  - now apply (PhAbs_evaluate_loaded x NH w ene val).
Qed.

Lemma sample_table_increasing : increasing [1; 2; 4].
Proof.
  intros i H0 H1. unfold np.len in H1. cbn [length] in H1.
  assert (Hi : i = 0%Z \/ i = 1%Z) by lia.
  destruct Hi as [-> | ->]; unfold at_; simpl; lra.
Defined.

Lemma C3_absorption_from_table_witness :
  exists sigma : R -> R,
    piecewise_linear [1; 2; 4] [8; 6; 2] sigma /\
    PhAbs.evaluate Sample.x 1 Sample.w
    = (Ok (map (fun xi => exp (- 1 * sigma xi)) Sample.x), Sample.w).
Proof.
  destruct (C3_absorption_from_table Sample.x 1 Sample.w [1; 2; 4] [8; 6; 2])
    as (sigma & Hs & Hp & _).
  - reflexivity.
  - reflexivity.
  - unfold np.len. simpl. lia.
  - reflexivity.
  - exists sigma. split; [exact (Hs sample_table_increasing)|exact Hp].
Defined.

(** C5. A call of [init_xsect] opens one file, and when that file has
    an extension 1 with columns ENERGY and SIGMA it binds [xsect_ene]
    and [xsect_val] to them; an evaluation leaves both attributes as
    they were. *)
Theorem C5_table_loaded_once_and_kept (E : Env) (t : string) (w : World) :
  (exists path : string, loads_once E w (PhAbs.init_xsect E t w) path) /\
  (exists path : string, loads_once E w (TbAbs.init_xsect E t w) path) /\
  (forall (x : array) (NH : R),
     xsect_ene (self (snd (PhAbs.evaluate x NH w))) = xsect_ene (self w) /\
     xsect_val (self (snd (PhAbs.evaluate x NH w))) = xsect_val (self w) /\
     xsect_ene (self (snd (TbAbs.evaluate x NH w))) = xsect_ene (self w) /\
     xsect_val (self (snd (TbAbs.evaluate x NH w))) = xsect_val (self w)).
Proof.
  split; [|split].
  - exists (PhAbs_selected E t). apply PhAbs_init_xsect_loads_once.
  - exists (TbAbs_selected E t). apply TbAbs_init_xsect_loads_once.
  - intros x NH.
    rewrite (PhAbs_evaluate_silent x NH w), (TbAbs_evaluate_silent x NH w).
    repeat split.
Qed.

Lemma C5_table_loaded_once_and_kept_witness :
  fst (PhAbs.init_xsect Sample.E "AG89" Sample.w) = Ok tt /\
  xsect_ene (self (snd (PhAbs.init_xsect Sample.E "AG89" Sample.w)))
  = Value [1; 2; 4] /\
  xsect_val (self (snd (PhAbs.init_xsect Sample.E "AG89" Sample.w)))
  = Value [8; 6; 2].
Proof.
  destruct (C5_table_loaded_once_and_kept Sample.E "AG89" Sample.w)
    as [[path [_ H]] _].
  destruct (H [None; Some Sample.table] (Some Sample.table)
              [1; 2; 4] [8; 6; 2]) as (H1 & H2 & H3 & _);
    try reflexivity.
  split; [exact H1|]. split; [exact H2|exact H3].
Defined.

End Absorption.

Section TableChoice.

Variable E : Env.

Lemma append_assoc (a b c : string) :
  ((a ++ b) ++ c)%string = (a ++ b ++ c)%string.
Proof.
  induction a as [|ch a IH]; cbn [append]; [reflexivity|now rewrite IH].
Qed.

Lemma path_to_xsect_ends (a : string) :
  exists prefix : string, os_path.join a "xsect" = (prefix ++ "xsect")%string.
Proof.
  unfold os_path.join. cbn [os_path.starts_with_sep Ascii.eqb Bool.eqb].
  destruct (String.eqb a "" || os_path.ends_with_sep a).
  - now exists a.
  - exists (a ++ "/")%string. now rewrite append_assoc.
Qed.

Lemma path_to_xsect_plain (a : string) :
  a <> ""%string -> os_path.ends_with_sep a = false ->
  os_path.join a "xsect" = (a ++ "/xsect")%string.
Proof.
  intros Ha Hs. unfold os_path.join.
  cbn [os_path.starts_with_sep Ascii.eqb Bool.eqb].
  apply String.eqb_neq in Ha. now rewrite Ha, Hs.
Qed.

Lemma PhAbs_falls_back (t : string) (w : World) :
  t <> "AG89"%string -> t <> "ASPL"%string ->
  falls_back E w (PhAbs.init_xsect E t w) (PhAbs.init_xsect E "AG89" w)
    ("Unknown abundace table " ++ t ++ ", reverting to AG89")
    (path_to_xsect E ++ "/xsect_phabs_angr.fits").
Proof.
  intros H1 H2. apply String.eqb_neq in H1, H2.
  assert (Hsel : PhAbs_selected E t
                 = (path_to_xsect E ++ "/xsect_phabs_angr.fits")%string)
    by (unfold PhAbs_selected; now rewrite H1, H2).
  assert (Hpr : PhAbs_printed t
                = [Print ("Unknown abundace table " ++ t
                          ++ ", reverting to AG89")])
    by (unfold PhAbs_printed; now rewrite H1, H2).
  unfold falls_back. rewrite !PhAbs_init_xsect_run.
  rewrite !read_columns_log, Hsel, Hpr. cbn [log].
  split; [reflexivity|]. split; [reflexivity|].
  change (PhAbs_selected E "AG89")
    with (path_to_xsect E ++ "/xsect_phabs_angr.fits")%string.
  split; [|split].
  - now apply read_columns_same_self.
  - now apply read_columns_same_self.
  - rewrite <- Hpr. apply read_columns_loads_once.
    apply PhAbs_printed_opens_nothing.
Qed.

Lemma TbAbs_falls_back (t : string) (w : World) :
  t <> "AG89"%string -> t <> "ASPL"%string -> t <> "WILM"%string ->
  falls_back E w (TbAbs.init_xsect E t w) (TbAbs.init_xsect E "WILM" w)
    ("Unknown abundace table " ++ t ++ ", reverting to WILM")
    (path_to_xsect E ++ "/xsect/xsect_tbabs_wilm.fits").
Proof.
  intros H1 H2 H3. apply String.eqb_neq in H1, H2, H3.
  assert (Hsel : TbAbs_selected E t
                 = (path_to_xsect E ++ "/xsect/xsect_tbabs_wilm.fits")%string)
    by (unfold TbAbs_selected; now rewrite H1, H2, H3).
  assert (Hpr : TbAbs_printed t
                = [Print ("Unknown abundace table " ++ t
                          ++ ", reverting to WILM")])
    by (unfold TbAbs_printed; now rewrite H1, H2, H3).
  unfold falls_back. rewrite !TbAbs_init_xsect_run.
  rewrite !read_columns_log, Hsel, Hpr. cbn [log].
  split; [reflexivity|]. split; [reflexivity|].
  change (TbAbs_selected E "WILM")
    with (path_to_xsect E ++ "/xsect/xsect_tbabs_wilm.fits")%string.
  split; [|split].
  - now apply read_columns_same_self.
  - now apply read_columns_same_self.
  - rewrite <- Hpr. apply read_columns_loads_once.
    apply TbAbs_printed_opens_nothing.
Qed.

End TableChoice.

(** C9. A table name that [init_xsect] does not know makes it print a
    message and carry on as for a known name: PhAbs (knowing AG89 and
    ASPL) opens [<path_to_xsect>/xsect_phabs_angr.fits] as for AG89,
    TbAbs (knowing AG89, ASPL and WILM) opens
    [<path_to_xsect>/xsect/xsect_tbabs_wilm.fits] as for WILM, where
    [<path_to_xsect>] is the user data directory joined with [xsect];
    nothing is raised for the name itself, and with a well-formed file
    the call returns.  The ASPL and WILM branches of TbAbs open a file
    under a second [xsect/] below [<path_to_xsect>], its AG89 branch a
    file directly in it. *)
Theorem C9_unknown_table_falls_back (E : Env) (t : string) (w : World) :
  (t <> "AG89"%string -> t <> "ASPL"%string ->
   falls_back E w (PhAbs.init_xsect E t w) (PhAbs.init_xsect E "AG89" w)
     ("Unknown abundace table " ++ t ++ ", reverting to AG89")
     (path_to_xsect E ++ "/xsect_phabs_angr.fits")) /\
  (t <> "AG89"%string -> t <> "ASPL"%string -> t <> "WILM"%string ->
   falls_back E w (TbAbs.init_xsect E t w) (TbAbs.init_xsect E "WILM" w)
     ("Unknown abundace table " ++ t ++ ", reverting to WILM")
     (path_to_xsect E ++ "/xsect/xsect_tbabs_wilm.fits")) /\
  log (snd (TbAbs.init_xsect E "ASPL" w))
  = (log w
     ++ [FitsOpen (path_to_xsect E ++ "/xsect/xsect_tbabs_aspl.fits")])%list /\
  log (snd (TbAbs.init_xsect E "WILM" w))
  = (log w
     ++ [FitsOpen (path_to_xsect E ++ "/xsect/xsect_tbabs_wilm.fits")])%list /\
  log (snd (TbAbs.init_xsect E "AG89" w))
  = (log w ++ [FitsOpen (path_to_xsect E ++ "/xsect_tbabs_angr.fits")])%list /\
  (exists prefix : string, path_to_xsect E = (prefix ++ "xsect")%string) /\
  (get_user_data_path E <> ""%string ->
   os_path.ends_with_sep (get_user_data_path E) = false ->
   path_to_xsect E = (get_user_data_path E ++ "/xsect")%string).
Proof.
  split; [apply PhAbs_falls_back|]. split; [apply TbAbs_falls_back|].
  rewrite !TbAbs_init_xsect_run, !read_columns_log. cbn [log].
  split; [reflexivity|]. split; [reflexivity|]. split; [reflexivity|].
  split.
  - apply path_to_xsect_ends.
  - apply path_to_xsect_plain.
Qed.

Lemma C9_unknown_table_falls_back_witness :
  falls_back Sample.E Sample.w
    (PhAbs.init_xsect Sample.E "XYZ" Sample.w)
    (PhAbs.init_xsect Sample.E "AG89" Sample.w)
    "Unknown abundace table XYZ, reverting to AG89"
    "/home/user/.astromodels/data/xsect/xsect_phabs_angr.fits" /\
  falls_back Sample.E Sample.w
    (TbAbs.init_xsect Sample.E "XYZ" Sample.w)
    (TbAbs.init_xsect Sample.E "WILM" Sample.w)
    "Unknown abundace table XYZ, reverting to WILM"
    "/home/user/.astromodels/data/xsect/xsect/xsect_tbabs_wilm.fits" /\
  path_to_xsect Sample.E = "/home/user/.astromodels/data/xsect"%string.
Proof.
  destruct (C9_unknown_table_falls_back Sample.E "XYZ" Sample.w)
    as (HP & HT & _ & _ & _ & _ & Hpath).
  split; [apply HP; discriminate|].
  split; [apply HT; discriminate|].
  apply Hpath; [discriminate|reflexivity].
Defined.

(** C7. PhAbs.evaluate and TbAbs.evaluate are the same function of the
    grid, the column density and the loaded table; the classes differ in
    the file [init_xsect] opens: from files with the same content both
    end with the same result and the same attributes. *)
Theorem C7_absorption_classes_agree (E : Env) (w : World) :
  (forall (x : array) (NH : R),
     PhAbs.evaluate x NH w = TbAbs.evaluate x NH w) /\
  (forall t1 t2 p1 p2 : string,
     fits_opened (log (snd (PhAbs.init_xsect E t1 w)))
     = (fits_opened (log w) ++ [p1])%list ->
     fits_opened (log (snd (TbAbs.init_xsect E t2 w)))
     = (fits_opened (log w) ++ [p2])%list ->
     fits_files E p1 = fits_files E p2 ->
     fst (PhAbs.init_xsect E t1 w) = fst (TbAbs.init_xsect E t2 w) /\
     self (snd (PhAbs.init_xsect E t1 w))
     = self (snd (TbAbs.init_xsect E t2 w))).
Proof.
  split; [reflexivity|].
  intros t1 t2 p1 p2 H1 H2 Hf.
  destruct (PhAbs_init_xsect_loads_once E t1 w) as [H1' _].
  destruct (TbAbs_init_xsect_loads_once E t2 w) as [H2' _].
  rewrite H1' in H1. rewrite H2' in H2.
  apply app_inv_head in H1, H2. injection H1 as <-. injection H2 as <-.
  rewrite PhAbs_init_xsect_run, TbAbs_init_xsect_run, Hf.
  now apply read_columns_same_self.
Qed.

Lemma C7_absorption_classes_agree_witness :
  PhAbs.evaluate Sample.x 1 Sample.w = TbAbs.evaluate Sample.x 1 Sample.w /\
  self (snd (PhAbs.init_xsect Sample.E "AG89" Sample.w))
  = self (snd (TbAbs.init_xsect Sample.E "WILM" Sample.w)).
Proof.
  destruct (C7_absorption_classes_agree Sample.E Sample.w) as [He Hi].
  split; [apply He|].
  apply (Hi "AG89" "WILM"
            "/home/user/.astromodels/data/xsect/xsect_phabs_angr.fits"
            "/home/user/.astromodels/data/xsect/xsect/xsect_tbabs_wilm.fits")%string;
    reflexivity.
Defined.

(** * Beyond the claims: every way an evaluation can end *)

Section EvaluateCases.

Variable E : Env.

Lemma APEC_evaluate_unbound (x : array) (K kT abund z : R) (w : World) :
  session (self w) = Absent ->
  APEC.evaluate E x K kT abund z w = (Err AttributeError, w).
Proof.
  intros H. unfold APEC.evaluate, bind at 1, getattr. now rewrite H.
Qed.

Lemma VAPEC_evaluate_unbound (x : array) (K kT abund z : R) (w : World) :
  session (self w) = Absent ->
  VAPEC.evaluate E x K kT abund z w = (Err AttributeError, w).
Proof.
  intros H. unfold VAPEC.evaluate, bind at 1, getattr. now rewrite H.
Qed.

(** The four ways an evaluation ends. *)
Lemma APEC_evaluate_cases (x : array) (K kT abund z : R) (w : World) :
  (exists e : exn, forall K' : R,
     APEC.evaluate E x K' kT abund z w = (Err e, w)) \/
  (exists sess : nat,
     session (self w) = Value sess /\ (2 <= np.len x)%Z /\
     forall K' : R,
       APEC.evaluate E x K' kT abund z w
       = outcome E APEC_elements x K' kT abund z w sess).
Proof.
  destruct (session (self w)) as [| |sess] eqn:Hs.
  - left. exists AttributeError. intros K'.
    now apply APEC_evaluate_unbound.
  - left. destruct (Z_lt_le_dec (np.len x) 2) as [H|H].
    + exists IndexError. intros K'. apply APEC_evaluate_short; [assumption|].
      rewrite Hs. discriminate.
    + exists AttributeError. intros K'.
      now apply APEC_evaluate_no_session.
  - destruct (Z_lt_le_dec (np.len x) 2) as [H|H].
    + left. exists IndexError. intros K'.
      apply APEC_evaluate_short; [assumption|]. rewrite Hs. discriminate.
    + right. exists sess. split; [reflexivity|]. split; [assumption|].
      intros K'. now apply APEC_evaluate_run.
Qed.

Lemma VAPEC_evaluate_cases (x : array) (K kT abund z : R) (w : World) :
  (exists e : exn, forall K' : R,
     VAPEC.evaluate E x K' kT abund z w = (Err e, w)) \/
  (exists sess : nat,
     session (self w) = Value sess /\ (2 <= np.len x)%Z /\
     forall K' : R,
       VAPEC.evaluate E x K' kT abund z w
       = outcome E VAPEC_elements x K' kT abund z w sess).
Proof.
  destruct (session (self w)) as [| |sess] eqn:Hs.
  - left. exists AttributeError. intros K'.
    now apply VAPEC_evaluate_unbound.
  - left. destruct (Z_lt_le_dec (np.len x) 2) as [H|H].
    + exists IndexError. intros K'. apply VAPEC_evaluate_short; [assumption|].
      rewrite Hs. discriminate.
    + exists AttributeError. intros K'.
      now apply VAPEC_evaluate_no_session.
  - destruct (Z_lt_le_dec (np.len x) 2) as [H|H].
    + left. exists IndexError. intros K'.
      apply VAPEC_evaluate_short; [assumption|]. rewrite Hs. discriminate.
    + right. exists sess. split; [reflexivity|]. split; [assumption|].
      intros K'. now apply VAPEC_evaluate_run.
Qed.

Lemma scalar_mul_one (a : array) : np.scalar_mul 1 a = a.
Proof.
  unfold np.scalar_mul. rewrite <- (map_id a) at 2.
  apply map_ext. intros v. ring.
Qed.

Lemma outcome_scaled_by (elements : list Z) (x : array) (K kT abund z : R)
  (w : World) (sess : nat) :
  outcome E elements x K kT abund z w sess
  = (scaled_by K (fst (outcome E elements x 1 kT abund z w sess)),
     snd (outcome E elements x 1 kT abund z w sess)).
Proof.
  unfold outcome. cbv zeta. cbn [fst snd].
  destruct (np.div _ _) as [q|e]; cbn [scaled_by]; [|reflexivity].
  now rewrite scalar_mul_one.
Qed.

End EvaluateCases.

(** X1. An evaluation on an instance whose [init_session] was never
    called raises AttributeError whatever the grid, and one on an
    instance whose [session] is [None] raises IndexError on a grid of
    fewer than two centres and AttributeError otherwise; in every one of
    these cases nothing is called and nothing is assigned. *)
Theorem X1_evaluate_without_session (E : Env) (x : array)
  (K kT abund z : R) (w : World) :
  (session (self w) = Absent ->
   APEC.evaluate E x K kT abund z w = (Err AttributeError, w) /\
   VAPEC.evaluate E x K kT abund z w = (Err AttributeError, w)) /\
  (session (self w) = PyNone -> (np.len x < 2)%Z ->
   APEC.evaluate E x K kT abund z w = (Err IndexError, w) /\
   VAPEC.evaluate E x K kT abund z w = (Err IndexError, w)) /\
  (session (self w) = PyNone -> (2 <= np.len x)%Z ->
   APEC.evaluate E x K kT abund z w = (Err AttributeError, w) /\
   VAPEC.evaluate E x K kT abund z w = (Err AttributeError, w)).
Proof.
  split; [|split].
  - intros H. split.
    + now apply APEC_evaluate_unbound.
    + now apply VAPEC_evaluate_unbound.
  - intros H Hn. split.
    + apply APEC_evaluate_short; [assumption|]. rewrite H. discriminate.
    + apply VAPEC_evaluate_short; [assumption|]. rewrite H. discriminate.
  - intros H Hn. split.
    + now apply APEC_evaluate_no_session.
    + now apply VAPEC_evaluate_no_session.
Qed.

Lemma X1_evaluate_without_session_witness :
  APEC.evaluate Sample.E Sample.x 1 1 1 0
    (mkWorld (mkInstance Absent Absent Absent) [])
  = (Err AttributeError, mkWorld (mkInstance Absent Absent Absent) []) /\
  APEC.evaluate Sample.E [5] 1 1 1 0
    (mkWorld (mkInstance PyNone Absent Absent) [])
  = (Err IndexError, mkWorld (mkInstance PyNone Absent Absent) []) /\
  VAPEC.evaluate Sample.E Sample.x 1 1 1 0
    (mkWorld (mkInstance PyNone Absent Absent) [])
  = (Err AttributeError, mkWorld (mkInstance PyNone Absent Absent) []).
Proof.
  split; [|split].
  - destruct (X1_evaluate_without_session Sample.E Sample.x 1 1 1 0
                (mkWorld (mkInstance Absent Absent Absent) []))
      as (H & _ & _).
    apply H. reflexivity.
  - destruct (X1_evaluate_without_session Sample.E [5] 1 1 1 0
                (mkWorld (mkInstance PyNone Absent Absent) []))
      as (_ & H & _).
    apply H; [reflexivity|]. unfold np.len. simpl. lia.
  - destruct (X1_evaluate_without_session Sample.E Sample.x 1 1 1 0
                (mkWorld (mkInstance PyNone Absent Absent) []))
      as (_ & _ & H).
    apply H; [reflexivity|]. unfold Sample.x, np.len. simpl. lia.
Defined.

(** X2. An evaluation either raises having called nothing, or makes
    exactly three calls, all on the object bound to [self.session] and
    in the order [set_response], [set_abund], [return_spectrum]; it
    opens no file and prints nothing. *)
Theorem X2_evaluate_calls_all_or_nothing (E : Env) (x : array)
  (K kT abund z : R) (w : World) :
  ((exists e : exn, APEC.evaluate E x K kT abund z w = (Err e, w)) \/
   (exists (sess : nat) (ebounds : array),
      session (self w) = Value sess /\
      log (snd (APEC.evaluate E x K kT abund z w))
      = (log w ++ session_calls sess APEC_elements ebounds abund kT)%list)) /\
  ((exists e : exn, VAPEC.evaluate E x K kT abund z w = (Err e, w)) \/
   (exists (sess : nat) (ebounds : array),
      session (self w) = Value sess /\
      log (snd (VAPEC.evaluate E x K kT abund z w))
      = (log w ++ session_calls sess VAPEC_elements ebounds abund kT)%list)).
Proof.
  split.
  - destruct (APEC_evaluate_cases E x K kT abund z w)
      as [[e He]|(sess & Hs & Hn & Hr)].
    + left. exists e. apply He.
    + right. exists sess, (edges (np.mul_scalar x (1 + z))).
      split; [assumption|]. now rewrite Hr.
  - destruct (VAPEC_evaluate_cases E x K kT abund z w)
      as [[e He]|(sess & Hs & Hn & Hr)].
    + left. exists e. apply He.
    + right. exists sess, (edges (np.mul_scalar x (1 + z))).
      split; [assumption|]. now rewrite Hr.
Qed.

(** X3. [K] is a pure normalisation: an evaluation with [K] makes the
    calls of the evaluation with [K = 1], ends in the same world, and
    returns [K] times what that one returns (or raises what it raises). *)
Theorem X3_K_scales_the_result (E : Env) (x : array) (K kT abund z : R)
  (w : World) :
  APEC.evaluate E x K kT abund z w
  = (scaled_by K (fst (APEC.evaluate E x 1 kT abund z w)),
     snd (APEC.evaluate E x 1 kT abund z w)) /\
  VAPEC.evaluate E x K kT abund z w
  = (scaled_by K (fst (VAPEC.evaluate E x 1 kT abund z w)),
     snd (VAPEC.evaluate E x 1 kT abund z w)).
Proof.
  split.
  - destruct (APEC_evaluate_cases E x K kT abund z w)
      as [[e He]|(sess & Hs & Hn & Hr)].
    + now rewrite (He K), (He 1).
    + rewrite (Hr K), (Hr 1). apply outcome_scaled_by.
  - destruct (VAPEC_evaluate_cases E x K kT abund z w)
      as [[e He]|(sess & Hs & Hn & Hr)].
    + now rewrite (He K), (He 1).
    + rewrite (Hr K), (Hr 1). apply outcome_scaled_by.
Qed.

(** X4. What [np.empty] leaves in the fresh array never shows: with any
    other contents of fresh memory an evaluation returns the same value
    and ends in the same world. *)
Theorem X4_fresh_memory_never_shows (E : Env) (g : Z -> R) (x : array)
  (K kT abund z : R) (w : World) :
  APEC.evaluate (with_garbage E g) x K kT abund z w
  = APEC.evaluate E x K kT abund z w /\
  VAPEC.evaluate (with_garbage E g) x K kT abund z w
  = VAPEC.evaluate E x K kT abund z w.
Proof.
  split.
  - destruct (session (self w)) as [| |sess] eqn:Hs.
    + now rewrite !APEC_evaluate_unbound.
    + destruct (Z_lt_le_dec (np.len x) 2) as [H|H].
      * rewrite !APEC_evaluate_short;
          try assumption; try (rewrite Hs; discriminate). reflexivity.
      * now rewrite !APEC_evaluate_no_session.
    + destruct (Z_lt_le_dec (np.len x) 2) as [H|H].
      * rewrite !APEC_evaluate_short;
          try assumption; try (rewrite Hs; discriminate). reflexivity.
      * now rewrite !(APEC_evaluate_run _ x K kT abund z w sess Hs H).
  - destruct (session (self w)) as [| |sess] eqn:Hs.
    + now rewrite !VAPEC_evaluate_unbound.
    + destruct (Z_lt_le_dec (np.len x) 2) as [H|H].
      * rewrite !VAPEC_evaluate_short;
          try assumption; try (rewrite Hs; discriminate). reflexivity.
      * now rewrite !VAPEC_evaluate_no_session.
    + destruct (Z_lt_le_dec (np.len x) 2) as [H|H].
      * rewrite !VAPEC_evaluate_short;
          try assumption; try (rewrite Hs; discriminate). reflexivity.
      * now rewrite !(VAPEC_evaluate_run _ x K kT abund z w sess Hs H).
Qed.

(** * Beyond the claims: the shape of the returned spectrum *)

Section SpectrumShape.

Variable E : Env.

Lemma len_widths_edges (x : array) (z : R) :
  (2 <= np.len x)%Z ->
  np.len (widths (edges (np.mul_scalar x (1 + z)))) = np.len x.
Proof.
  intros H.
  assert (He : np.len (edges (np.mul_scalar x (1 + z))) = (np.len x + 1)%Z)
    by (rewrite len_edges; rewrite len_mul_scalar; lia).
  unfold np.len in *. rewrite widths_length. lia.
Qed.

Lemma outcome_mismatch (elements : list Z) (x : array) (K kT abund z : R)
  (w : World) (sess : nat) :
  (2 <= np.len x)%Z ->
  let eb := edges (np.mul_scalar x (1 + z)) in
  let s := spectrum_after E w sess elements eb abund kT in
  np.len s <> np.len x -> np.len s <> 1%Z ->
  fst (outcome E elements x K kT abund z w sess) = Err ValueError.
Proof.
  intros H eb s Hn H1. pose proof (len_widths_edges x z H) as Hw.
  fold eb in Hw.
  unfold outcome. cbv zeta. cbn [fst].
  fold eb. fold (spectrum_after E w sess elements eb abund kT). fold s.
  unfold np.div, np.elementwise. unfold np.len in *.
  destruct (Nat.eqb_spec (length s) (length (widths eb))); [lia|].
  destruct (Nat.eqb_spec (length (widths eb)) 1); [lia|].
  destruct (Nat.eqb_spec (length s) 1); [lia|reflexivity].
Qed.

Lemma outcome_spread (elements : list Z) (x : array) (K kT abund z : R)
  (w : World) (sess : nat) (s0 : R) :
  (2 <= np.len x)%Z ->
  let eb := edges (np.mul_scalar x (1 + z)) in
  spectrum_after E w sess elements eb abund kT = [s0] ->
  exists result : array,
    fst (outcome E elements x K kT abund z w sess) = Ok result /\
    spread_spectrum K s0 (np.len x) eb result.
Proof.
  intros H eb Hs. pose proof (len_widths_edges x z H) as Hw. fold eb in Hw.
  assert (He : np.len eb = (np.len x + 1)%Z)
    by (unfold eb; rewrite len_edges; rewrite len_mul_scalar; lia).
  exists (np.scalar_mul K
            (np.div_scalar (map (Rdiv s0) (widths eb)) 1e-14)).
  split.
  - unfold outcome. cbv zeta. cbn [fst].
    fold eb. fold (spectrum_after E w sess elements eb abund kT).
    rewrite Hs. unfold np.div, np.elementwise. cbn [length hd].
    unfold np.len in *.
    destruct (Nat.eqb_spec 1 (length (widths eb))); [lia|].
    destruct (Nat.eqb_spec (length (widths eb)) 1); [lia|].
    reflexivity.
  - split.
    + unfold np.scalar_mul, np.div_scalar, np.len in *.
      now rewrite !length_map.
    + intros i Hi. unfold np.scalar_mul, np.div_scalar.
      rewrite map_at by (unfold np.len in *; rewrite !length_map; lia).
      rewrite map_at by (unfold np.len in *; rewrite length_map; lia).
      rewrite map_at, widths_at by lia.
      unfold Rdiv. ring.
Qed.

End SpectrumShape.

(** X5. When the session answers with a spectrum whose length is
    neither the number of centres nor 1, the evaluation raises
    ValueError, and it does so after the three session calls have been
    made: the session has been given the new response and abundances
    although no value is returned. *)
Theorem X5_spectrum_of_wrong_length (E : Env) (x : array)
  (K kT abund z : R) (w : World) (sess : nat) :
  session (self w) = Value sess ->
  (2 <= np.len x)%Z ->
  exists ebounds : array,
    passes_ebounds E x K kT abund z w sess ebounds /\
    (let s := spectrum_after E w sess APEC_elements ebounds abund kT in
     np.len s <> np.len x -> np.len s <> 1%Z ->
     fst (APEC.evaluate E x K kT abund z w) = Err ValueError) /\
    (let s := spectrum_after E w sess VAPEC_elements ebounds abund kT in
     np.len s <> np.len x -> np.len s <> 1%Z ->
     fst (VAPEC.evaluate E x K kT abund z w) = Err ValueError).
Proof.
  intros Hs H. exists (edges (np.mul_scalar x (1 + z))).
  split; [now apply passes_edges|]. split.
  - rewrite (APEC_evaluate_run E x K kT abund z w sess Hs H).
    now apply outcome_mismatch.
  - rewrite (VAPEC_evaluate_run E x K kT abund z w sess Hs H).
    now apply outcome_mismatch.
Qed.

Lemma X5_spectrum_of_wrong_length_witness :
  fst (APEC.evaluate Sample.E [1; 2; 3; 4] 1 1 1 0 Sample.w)
  = Err ValueError /\
  log (snd (APEC.evaluate Sample.E [1; 2; 3; 4] 1 1 1 0 Sample.w))
  <> log Sample.w.
Proof.
  destruct (X5_spectrum_of_wrong_length Sample.E [1; 2; 3; 4] 1 1 1 0
              Sample.w 0) as (ebounds & [Hp _] & HA & _).
  - reflexivity.
  - unfold np.len. simpl. lia.
  - split.
    + apply HA; unfold np.len; simpl; lia.
    + rewrite Hp. discriminate.
Defined.

(** X6. When the session answers with a single value, numpy spreads it
    over the bins: the evaluation returns [K * s[0] / binsize[i] / 1e-14]
    for each of the [n] bins. *)
Theorem X6_single_value_is_spread (E : Env) (x : array)
  (K kT abund z : R) (w : World) (sess : nat) :
  session (self w) = Value sess ->
  (2 <= np.len x)%Z ->
  exists ebounds : array,
    passes_ebounds E x K kT abund z w sess ebounds /\
    (forall s0 : R,
       spectrum_after E w sess APEC_elements ebounds abund kT = [s0] ->
       exists result : array,
         fst (APEC.evaluate E x K kT abund z w) = Ok result /\
         spread_spectrum K s0 (np.len x) ebounds result) /\
    (forall s0 : R,
       spectrum_after E w sess VAPEC_elements ebounds abund kT = [s0] ->
       exists result : array,
         fst (VAPEC.evaluate E x K kT abund z w) = Ok result /\
         spread_spectrum K s0 (np.len x) ebounds result).
Proof.
  intros Hs H. exists (edges (np.mul_scalar x (1 + z))).
  split; [now apply passes_edges|]. split; intros s0 Hs0.
  - rewrite (APEC_evaluate_run E x K kT abund z w sess Hs H).
    now apply outcome_spread.
  - rewrite (VAPEC_evaluate_run E x K kT abund z w sess Hs H).
    now apply outcome_spread.
Qed.

Lemma X6_single_value_is_spread_witness :
  exists ebounds result : array,
    fst (APEC.evaluate Edge.single Sample.x 2 1 1 0 Sample.w) = Ok result /\
    spread_spectrum 2 5 3 ebounds result.
Proof.
  destruct (X6_single_value_is_spread Edge.single Sample.x 2 1 1 0
              Sample.w 0) as (ebounds & _ & HA & _).
  - reflexivity.
  - unfold Sample.x, np.len. simpl. lia.
  - destruct (HA 5 eq_refl) as (result & Hr & Hsp).
    exists ebounds, result. split; [exact Hr|exact Hsp].
Defined.

(** * Beyond the claims: evenly spaced grids *)

Section UniformGrid.

Lemma edges_centred (x : array) (z d : R) :
  (2 <= np.len x)%Z -> uniform x d ->
  centred_bins x z (d * (1 + z)) (edges (np.mul_scalar x (1 + z))).
Proof.
  intros H Hu. unfold centred_bins. cbv zeta.
  set (xz := np.mul_scalar x (1 + z)).
  assert (Hxz : np.len xz = np.len x) by apply len_mul_scalar.
  assert (Hstep : forall j : Z, (0 <= j)%Z -> (j + 1 < np.len x)%Z ->
                    xz.[j + 1] - xz.[j] = d * (1 + z)).
  { intros j H0 H1. unfold xz. rewrite !mul_scalar_at by lia.
    rewrite <- (Hu j H0 H1). ring. }
  intros i Hi. split.
  - destruct (Z.eq_dec i 0) as [->|Hne].
    + rewrite edges_at_first, midpoints_at by lia.
      specialize (Hstep 0%Z ltac:(lia) ltac:(lia)). lra.
    + rewrite edges_at_inner, midpoints_at by lia.
      specialize (Hstep (i - 1)%Z ltac:(lia) ltac:(lia)).
      replace (i - 1 + 1)%Z with i in * by lia. lra.
  - destruct (Z.eq_dec i (np.len x - 1)) as [->|Hne].
    + replace (np.len x - 1 + 1)%Z with (np.len xz) by lia.
      rewrite edges_at_last, midpoints_at by lia.
      specialize (Hstep (np.len x - 2)%Z ltac:(lia) ltac:(lia)).
      rewrite Hxz.
      replace (np.len x - 2 + 1)%Z with (np.len x - 1)%Z in * by lia. lra.
    + rewrite edges_at_inner, midpoints_at by lia.
      replace (i + 1 - 1)%Z with i by lia.
      specialize (Hstep i ltac:(lia) ltac:(lia)). lra.
Qed.

End UniformGrid.

(** X7. On an evenly spaced grid, neighbouring centres [d] apart, the
    edges handed to [set_response] put every redshifted centre in the
    middle of its bin and make every bin [d * (1 + z)] wide, the two
    outer bins included. *)
Theorem X7_even_grid_gives_centred_bins (E : Env) (x : array)
  (K kT abund z d : R) (w : World) (sess : nat) :
  session (self w) = Value sess ->
  (2 <= np.len x)%Z ->
  uniform x d ->
  exists ebounds : array,
    passes_ebounds E x K kT abund z w sess ebounds /\
    centred_bins x z (d * (1 + z)) ebounds.
Proof.
  intros Hs H Hu. exists (edges (np.mul_scalar x (1 + z))). split.
  - now apply passes_edges.
  - now apply edges_centred.
Qed.

Lemma sample_uniform : uniform Sample.x 1.
Proof.
  intros i H0 H1. unfold Sample.x, np.len in *. cbn [length] in H1.
  assert (Hi : i = 0%Z \/ i = 1%Z) by lia.
  destruct Hi as [-> | ->]; unfold at_; simpl; lra.
Defined.

Lemma X7_even_grid_gives_centred_bins_witness :
  exists ebounds : array,
    passes_ebounds Sample.E Sample.x 1 1 1 3 Sample.w 0 ebounds /\
    centred_bins Sample.x 3 (1 * (1 + 3)) ebounds.
Proof.
  apply (X7_even_grid_gives_centred_bins Sample.E Sample.x 1 1 1 3 1
           Sample.w 0).
  - reflexivity.
  - unfold Sample.x, np.len. simpl. lia.
  - exact sample_uniform.
Defined.

(** * Beyond the claims: a session made by [init_session] *)

Section FreshSession.

Variable E : Env.

Lemma history_app (obj : nat) (l l' : list event) :
  history obj (l ++ l') = (history obj l ++ history obj l')%list.
Proof.
  induction l as [|[o c|p|s] l IH]; cbn [history app]; try assumption.
  - reflexivity.
  - destruct (Nat.eqb o obj); cbn [app]; now rewrite IH.
Qed.

Lemma history_unused (obj : nat) (l : list event) :
  (forall c : call, ~ In (Session obj c) l) -> history obj l = [].
Proof.
  induction l as [|[o c|p|s] l IH]; intros H; cbn [history].
  - reflexivity.
  - destruct (Nat.eqb_spec o obj) as [->|_].
    + exfalso. apply (H c). now left.
    + apply IH. intros c' Hc. apply (H c'). now right.
  - apply IH. intros c' Hc. apply (H c'). now right.
  - apply IH. intros c' Hc. apply (H c'). now right.
Qed.

Lemma init_session_run (t : string) (w : World) :
  APEC.init_session t w
  = (Ok tt,
     mkWorld (mkInstance (Value (length (log w))) (xsect_ene (self w))
                (xsect_val (self w)))
             (log w ++ [Session (length (log w)) (Call_CIESession t)])).
Proof. reflexivity. Qed.

Lemma spectrum_after_fresh (t : string) (w : World) (elements : list Z)
  (eb : array) (abund kT : R) :
  next_object_unused w ->
  spectrum_after E (snd (APEC.init_session t w)) (length (log w)) elements
    eb abund kT
  = spectrum E
      [Call_CIESession t; Call_set_response eb true;
       Call_set_abund elements abund]
      kT.
Proof.
  intros Hf. unfold spectrum_after. rewrite init_session_run. cbn [snd log].
  rewrite !history_app, (history_unused _ _ Hf). cbn [history app].
  now rewrite Nat.eqb_refl.
Qed.

End FreshSession.

(** X8. After [init_session(abund_table)] an evaluation on a grid of at
    least two centres reaches the session whatever the instance was
    before: the log gains the constructor call and then the three calls
    on the new object, and the value returned is computed from the
    spectrum of a session that has seen the constructor, this response
    and these abundances only, so it does not depend on any call made on
    an earlier session. *)
Theorem X8_init_session_then_evaluate (E : Env) (t : string) (x : array)
  (K kT abund z : R) (w : World) :
  (2 <= np.len x)%Z ->
  next_object_unused w ->
  let obj := length (log w) in
  let w1 := snd (APEC.init_session t w) in
  let w2 := snd (VAPEC.init_session t w) in
  exists ebounds : array,
    bin_edge_formula x z ebounds /\
    log (snd (APEC.evaluate E x K kT abund z w1))
    = (log w ++ Session obj (Call_CIESession t)
         :: session_calls obj APEC_elements ebounds abund kT)%list /\
    log (snd (VAPEC.evaluate E x K kT abund z w2))
    = (log w ++ Session obj (Call_CIESession t)
         :: session_calls obj VAPEC_elements ebounds abund kT)%list /\
    (let s := spectrum E [Call_CIESession t; Call_set_response ebounds true;
                          Call_set_abund APEC_elements abund] kT in
     np.len s = np.len x ->
     exists result : array,
       fst (APEC.evaluate E x K kT abund z w1) = Ok result /\
       scaled_spectrum K s ebounds result) /\
    (let s := spectrum E [Call_CIESession t; Call_set_response ebounds true;
                          Call_set_abund VAPEC_elements abund] kT in
     np.len s = np.len x ->
     exists result : array,
       fst (VAPEC.evaluate E x K kT abund z w2) = Ok result /\
       scaled_spectrum K s ebounds result).
Proof.
  intros H Hf obj w1 w2.
  assert (Hs : session (self w1) = Value obj) by reflexivity.
  exists (edges (np.mul_scalar x (1 + z))).
  split; [now apply edges_formula|].
  change w2 with w1.
  rewrite (APEC_evaluate_run E x K kT abund z w1 obj Hs H).
  rewrite (VAPEC_evaluate_run E x K kT abund z w1 obj Hs H).
  split; [|split; [|split]].
  - unfold outcome. cbv zeta. cbn [snd log]. unfold w1.
    rewrite init_session_run. cbn [snd log]. now rewrite <- app_assoc.
  - unfold outcome. cbv zeta. cbn [snd log]. unfold w1.
    rewrite init_session_run. cbn [snd log]. now rewrite <- app_assoc.
  - cbv zeta. rewrite <- (spectrum_after_fresh E t w _ _ abund kT Hf).
    now apply outcome_scaled.
  - cbv zeta. rewrite <- (spectrum_after_fresh E t w _ _ abund kT Hf).
    now apply outcome_scaled.
Qed.

Lemma X8_init_session_then_evaluate_witness :
  exists ebounds result : array,
    bin_edge_formula Sample.x 0 ebounds /\
    fst (APEC.evaluate Sample.E Sample.x 2 1 1 0
           (snd (APEC.init_session "AG89" Sample.w))) = Ok result /\
    scaled_spectrum 2 [10; 20; 30] ebounds result.
Proof.
  destruct (X8_init_session_then_evaluate Sample.E "AG89" Sample.x 2 1 1 0
              Sample.w) as (ebounds & Hf & _ & _ & HA & _).
  - unfold Sample.x, np.len. simpl. lia.
  - intros c H. exact H.
  - destruct HA as (result & Hr & Hsp); [reflexivity|].
    exists ebounds, result. split; [exact Hf|]. split; [exact Hr|exact Hsp].
Defined.

(** * Beyond the claims: loading and then evaluating *)

Section LoadThenEvaluate.

Variable E : Env.

Lemma PhAbs_opens (t : string) (w : World) :
  opens w (PhAbs.init_xsect E t w) (PhAbs_selected E t).
Proof. apply PhAbs_init_xsect_loads_once. Qed.

Lemma TbAbs_opens (t : string) (w : World) :
  opens w (TbAbs.init_xsect E t w) (TbAbs_selected E t).
Proof. apply TbAbs_init_xsect_loads_once. Qed.

Lemma read_columns_early_failure (path : string) (e : exn) (w : World) :
  fails_before_sigma E path e ->
  read_columns (fits_files E path) w = (Err e, w).
Proof.
  unfold read_columns, bind, lift.
  intros [H|[(fxs & H & Hh)|(fxs & dxs & H & Hh & He)]]; rewrite H.
  - reflexivity.
  - now rewrite Hh.
  - now rewrite Hh, He.
Qed.

Lemma read_columns_late_failure (path : string) (ene : array) (e : exn)
  (w : World) :
  fails_at_sigma E path ene e ->
  read_columns (fits_files E path) w
  = (Err e,
     mkWorld (mkInstance (session (self w)) (Value ene) (xsect_val (self w)))
             (log w)).
Proof.
  unfold read_columns, bind, lift, set_xsect_ene.
  intros (fxs & dxs & H & Hh & He & Hv). rewrite H, Hh, He. cbn [self log].
  now rewrite Hv.
Qed.

Lemma read_columns_table (path : string) (ene val : array) (w : World) :
  table_in_file E path ene val ->
  read_columns (fits_files E path) w
  = (Ok tt,
     mkWorld (mkInstance (session (self w)) (Value ene) (Value val)) (log w)).
Proof.
  intros (fxs & dxs & H & Hh & He & Hv). rewrite H.
  now apply (read_columns_ok fxs dxs).
Qed.

(** Reading the same file again changes nothing more. *)
Lemma read_columns_again (r : result HDUList) (w w' : World) :
  self w' = self (snd (read_columns r w)) ->
  fst (read_columns r w') = fst (read_columns r w) /\
  self (snd (read_columns r w')) = self (snd (read_columns r w)).
Proof.
  unfold read_columns, bind, lift, set_xsect_ene, set_xsect_val.
  destruct r as [fxs|e]; [|cbn [fst snd]; now split].
  destruct (fits.hdu fxs 1) as [dxs|e]; [|cbn [fst snd]; now split].
  destruct (fits.field dxs "ENERGY") as [ene|e]; [|cbn [fst snd]; now split].
  cbn [self log].
  destruct (fits.field dxs "SIGMA") as [val|e]; cbn [fst snd self];
    intros H; rewrite H; cbn [session xsect_ene xsect_val]; now split.
Qed.

End LoadThenEvaluate.

(** X9. Loading and then evaluating: when the file that [init_xsect]
    opens has a table of at least one row with increasing energies, an
    evaluation that follows returns [exp(-NH * sigma(x))] with [sigma]
    interpolating the columns of that file, whatever table the instance
    held before. *)
Theorem X9_init_xsect_then_evaluate (E : Env) (t : string) (x : array)
  (NH : R) (w : World) :
  exists pathP pathT : string,
    opens w (PhAbs.init_xsect E t w) pathP /\
    opens w (TbAbs.init_xsect E t w) pathT /\
    (forall ene val : array,
       table_in_file E pathP ene val ->
       (1 <= np.len ene)%Z -> np.len val = np.len ene ->
       increasing ene ->
       let w1 := snd (PhAbs.init_xsect E t w) in
       exists sigma : R -> R,
         piecewise_linear ene val sigma /\
         PhAbs.evaluate x NH w1
         = (Ok (map (fun xi => exp (- NH * sigma xi)) x), w1)) /\
    (forall ene val : array,
       table_in_file E pathT ene val ->
       (1 <= np.len ene)%Z -> np.len val = np.len ene ->
       increasing ene ->
       let w1 := snd (TbAbs.init_xsect E t w) in
       exists sigma : R -> R,
         piecewise_linear ene val sigma /\
         TbAbs.evaluate x NH w1
         = (Ok (map (fun xi => exp (- NH * sigma xi)) x), w1)).
Proof.
  exists (PhAbs_selected E t), (TbAbs_selected E t).
  split; [apply PhAbs_opens|]. split; [apply TbAbs_opens|].
  split; intros ene val Ht Hn Hl Hinc w1; unfold w1;
    exists (fun xi => np.interp1 xi ene val);
    (split; [now apply interp1_piecewise_linear|]).
  - rewrite PhAbs_init_xsect_run, (read_columns_table E _ ene val _ Ht).
    now apply PhAbs_evaluate_loaded.
  - rewrite TbAbs_init_xsect_run, (read_columns_table E _ ene val _ Ht).
    now apply (PhAbs_evaluate_loaded x NH _ ene val).
Qed.

Lemma X9_init_xsect_then_evaluate_witness :
  exists sigma : R -> R,
    piecewise_linear [1; 2; 4] [8; 6; 2] sigma /\
    PhAbs.evaluate [3] 1 (snd (PhAbs.init_xsect Sample.E "ASPL" Edge.blank))
    = (Ok [exp (- 1 * sigma 3)],
       snd (PhAbs.init_xsect Sample.E "ASPL" Edge.blank)).
Proof.
  destruct (X9_init_xsect_then_evaluate Sample.E "ASPL" [3] 1 Edge.blank)
    as (pathP & pathT & _ & _ & HP & _).
  apply (HP [1; 2; 4] [8; 6; 2]).
  - exists [None; Some Sample.table], (Some Sample.table).
    repeat split.
  - unfold np.len. simpl. lia.
  - reflexivity.
  - exact sample_table_increasing.
Defined.

(** X10. When the file cannot be opened, has no extension 1, or its
    ENERGY column cannot be read, [init_xsect] raises what that step
    raised and leaves every attribute of the instance as it was: a table
    loaded earlier stays usable. *)
Theorem X10_failed_load_keeps_the_table (E : Env) (t : string) (w : World) :
  exists pathP pathT : string,
    opens w (PhAbs.init_xsect E t w) pathP /\
    opens w (TbAbs.init_xsect E t w) pathT /\
    (forall e : exn,
       fails_before_sigma E pathP e ->
       fst (PhAbs.init_xsect E t w) = Err e /\
       self (snd (PhAbs.init_xsect E t w)) = self w) /\
    (forall e : exn,
       fails_before_sigma E pathT e ->
       fst (TbAbs.init_xsect E t w) = Err e /\
       self (snd (TbAbs.init_xsect E t w)) = self w).
Proof.
  exists (PhAbs_selected E t), (TbAbs_selected E t).
  split; [apply PhAbs_opens|]. split; [apply TbAbs_opens|].
  split; intros e He.
  - rewrite PhAbs_init_xsect_run, (read_columns_early_failure E _ e _ He).
    now split.
  - rewrite TbAbs_init_xsect_run, (read_columns_early_failure E _ e _ He).
    now split.
Qed.

Lemma X10_failed_load_keeps_the_table_witness :
  fst (TbAbs.init_xsect Edge.no_file "WILM" Sample.w) = Err OSError /\
  self (snd (TbAbs.init_xsect Edge.no_file "WILM" Sample.w)) = self Sample.w.
Proof.
  destruct (X10_failed_load_keeps_the_table Edge.no_file "WILM" Sample.w)
    as (pathP & pathT & _ & _ & _ & HT).
  apply HT. left. reflexivity.
Defined.

(** X11. When the ENERGY column is read but the SIGMA column is not,
    [init_xsect] raises what reading SIGMA raised with [xsect_ene]
    already rebound: the instance is left holding the energies of the
    new file beside the cross sections it had before (or none). *)
Theorem X11_half_loaded_table (E : Env) (t : string) (w : World) :
  exists pathP pathT : string,
    opens w (PhAbs.init_xsect E t w) pathP /\
    opens w (TbAbs.init_xsect E t w) pathT /\
    (forall (ene : array) (e : exn),
       fails_at_sigma E pathP ene e ->
       fst (PhAbs.init_xsect E t w) = Err e /\
       xsect_ene (self (snd (PhAbs.init_xsect E t w))) = Value ene /\
       xsect_val (self (snd (PhAbs.init_xsect E t w))) = xsect_val (self w)) /\
    (forall (ene : array) (e : exn),
       fails_at_sigma E pathT ene e ->
       fst (TbAbs.init_xsect E t w) = Err e /\
       xsect_ene (self (snd (TbAbs.init_xsect E t w))) = Value ene /\
       xsect_val (self (snd (TbAbs.init_xsect E t w))) = xsect_val (self w)).
Proof.
  exists (PhAbs_selected E t), (TbAbs_selected E t).
  split; [apply PhAbs_opens|]. split; [apply TbAbs_opens|].
  split; intros ene e He.
  - rewrite PhAbs_init_xsect_run, (read_columns_late_failure E _ ene e _ He).
    repeat split.
  - rewrite TbAbs_init_xsect_run, (read_columns_late_failure E _ ene e _ He).
    repeat split.
Qed.

Lemma X11_half_loaded_table_witness :
  fst (PhAbs.init_xsect Edge.no_sigma "AG89" Sample.w) = Err KeyError /\
  xsect_ene (self (snd (PhAbs.init_xsect Edge.no_sigma "AG89" Sample.w)))
  = Value [1; 2; 4] /\
  xsect_val (self (snd (PhAbs.init_xsect Edge.no_sigma "AG89" Sample.w)))
  = Value [8; 6; 2].
Proof.
  destruct (X11_half_loaded_table Edge.no_sigma "AG89" Sample.w)
    as (pathP & pathT & _ & _ & HP & _).
  apply (HP [1; 2; 4] KeyError).
  exists [None; Some [("ENERGY", [1; 2; 4])]%string],
         (Some [("ENERGY", [1; 2; 4])]%string).
  repeat split.
Defined.

(** X12. Calling [init_xsect] a second time with the same table name
    ends as the first call did: the same result and the same
    attributes. *)
Theorem X12_init_xsect_twice (E : Env) (t : string) (w : World) :
  (let w1 := snd (PhAbs.init_xsect E t w) in
   fst (PhAbs.init_xsect E t w1) = fst (PhAbs.init_xsect E t w) /\
   self (snd (PhAbs.init_xsect E t w1)) = self w1) /\
  (let w1 := snd (TbAbs.init_xsect E t w) in
   fst (TbAbs.init_xsect E t w1) = fst (TbAbs.init_xsect E t w) /\
   self (snd (TbAbs.init_xsect E t w1)) = self w1).
Proof.
  split; intros w1; unfold w1.
  - rewrite (PhAbs_init_xsect_run E t (snd _)).
    rewrite (PhAbs_init_xsect_run E t w).
    apply read_columns_again. reflexivity.
  - rewrite (TbAbs_init_xsect_run E t (snd _)).
    rewrite (TbAbs_init_xsect_run E t w).
    apply read_columns_again. reflexivity.
Qed.

(** * Beyond the claims: when an absorption evaluates, and to what *)

Section AbsorptionValues.

Lemma PhAbs_evaluate_outcome (x : array) (NH : R) (w : World) :
  PhAbs.evaluate x NH w
  = (match xsect_ene (self w) with
     | Absent => Err AttributeError
     | PyNone => Err AssertionError
     | Value ene =>
         match xsect_val (self w) with
         | Absent => Err AttributeError
         | PyNone => Err AssertionError
         | Value val =>
             match np.interp x ene val with
             | Ok s => Ok (np.exp (np.scalar_mul (- NH) s))
             | Err e => Err e
             end
         end
     end, w).
Proof.
  unfold PhAbs.evaluate, assert_xsect_loaded, bind, getattr, lift, ret,
    as_array.
  destruct (xsect_ene (self w)) as [| |ene] eqn:He; try reflexivity.
  cbv beta iota. rewrite ?He. cbv beta iota.
  destruct (xsect_val (self w)) as [| |val] eqn:Hv; try reflexivity.
  repeat (rewrite ?He, ?Hv; cbv beta iota).
  now destruct (np.interp x ene val).
Qed.

Lemma interp_unusable (x ene val : array) :
  np.len ene = 0%Z \/ np.len val <> np.len ene ->
  np.interp x ene val = Err ValueError.
Proof.
  intros H. unfold np.interp.
  destruct (Z.eqb_spec (np.len ene) 0) as [|H0]; [reflexivity|].
  destruct (Z.eqb_spec (np.len val) (np.len ene)) as [Hl|_];
    [|reflexivity].
  destruct H; contradiction.
Qed.

Lemma locate_lower (lo xi : R) (xp fp : array) :
  length fp = length xp -> (1 <= length xp)%nat ->
  StronglySorted Rlt xp ->
  hd 0 xp <= xi ->
  (forall k : nat, (k < length fp)%nat -> lo <= nth k fp 0) ->
  lo <= np.locate xi xp fp.
Proof.
  revert fp. induction xp as [|x0 xp' IH]; intros fp Hl Hn Hs Hxi Hlo.
  - cbn in Hn. lia.
  - destruct xp' as [|x1 t].
    + destruct fp as [|f0 [|f1 ft]]; try discriminate.
      apply (Hlo 0%nat). cbn. lia.
    + destruct fp as [|f0 [|f1 ft]]; try discriminate.
      rewrite locate_step. cbn [hd] in Hxi.
      pose proof (Hlo 0%nat ltac:(cbn [length]; lia)) as H0.
      pose proof (Hlo 1%nat ltac:(cbn [length]; lia)) as H1.
      cbn [nth] in H0, H1.
      assert (Hx : x0 < x1).
      { apply StronglySorted_inv in Hs as [_ Hs].
        rewrite Forall_forall in Hs. apply Hs. now left. }
      destruct (Rlt_dec xi x1) as [Hlt|Hge].
      * set (u := (xi - x0) / (x1 - x0)).
        assert (Hu : 0 <= u <= 1).
        { unfold u. split.
          - apply Rmult_le_pos; [lra|]. apply Rlt_le, Rinv_0_lt_compat. lra.
          - apply (Rmult_le_reg_r (x1 - x0)); [lra|].
            unfold Rdiv. rewrite Rmult_assoc, Rinv_l by lra. lra. }
        replace ((f1 - f0) / (x1 - x0) * (xi - x0) + f0)
          with (f0 + (f1 - f0) * u) by (unfold u; field; lra).
        nra.
      * apply IH.
        -- cbn [length] in *. lia.
        -- cbn [length]. lia.
        -- now apply StronglySorted_inv in Hs.
        -- cbn [hd]. lra.
        -- intros k Hk. apply (Hlo (S k)). cbn [length] in *. lia.
Qed.

Lemma interp1_lower (lo xi : R) (xp fp : array) :
  increasing xp -> (1 <= np.len xp)%Z -> np.len fp = np.len xp ->
  (forall i : Z, (0 <= i < np.len fp)%Z -> lo <= fp.[i]) ->
  lo <= np.interp1 xi xp fp.
Proof.
  intros Hinc Hn Hl Hlo. unfold np.interp1.
  assert (Hnat : forall k : nat, (k < length fp)%nat -> lo <= nth k fp 0).
  { intros k Hk. specialize (Hlo (Z.of_nat k)). unfold at_, np.len in Hlo.
    rewrite Nat2Z.id in Hlo. apply Hlo. lia. }
  destruct (Rlt_dec xi (hd 0 xp)) as [_|Hge].
  - rewrite <- at_zero_hd. apply Hlo. lia.
  - apply locate_lower; try assumption.
    + unfold np.len in Hl. lia.
    + unfold np.len in Hn. lia.
    + now apply increasing_sorted.
    + lra.
Qed.

Lemma interp1_node (xp fp : array) (j : Z) :
  increasing xp -> np.len fp = np.len xp -> (0 <= j < np.len xp)%Z ->
  np.interp1 xp.[j] xp fp = fp.[j].
Proof.
  intros Hinc Hl Hj.
  destruct (interp1_piecewise_linear xp fp Hinc ltac:(lia) Hl)
    as (_ & Hright & Hchord).
  destruct (Z.eq_dec j (np.len xp - 1)) as [->|Hne].
  - apply Hright. apply Rle_refl.
  - rewrite (Hchord xp.[j] j) by
      first [lia | split; [apply Rle_refl|apply Hinc; lia]].
    unfold Rdiv. ring.
Qed.

Lemma interp_nodes (xp fp : array) :
  increasing xp -> np.len fp = np.len xp ->
  map (fun xi => np.interp1 xi xp fp) xp = fp.
Proof.
  intros Hinc Hl. apply (nth_ext _ _ 0 0).
  - rewrite length_map. unfold np.len in Hl. lia.
  - intros k Hk. rewrite length_map in Hk.
    pose proof (map_at (fun xi => np.interp1 xi xp fp) xp (Z.of_nat k)) as Hm.
    unfold at_ in Hm. rewrite Nat2Z.id in Hm. rewrite Hm
      by (unfold np.len; lia).
    pose proof (interp1_node xp fp (Z.of_nat k) Hinc Hl) as Hnode.
    unfold at_ in Hnode. rewrite Nat2Z.id in Hnode.
    apply Hnode. unfold np.len. lia.
Qed.

Lemma exp_nonpos_le_one (a : R) : a <= 0 -> exp a <= 1.
Proof.
  intros [Hlt | ->].
  - rewrite <- exp_0. now apply Rlt_le, exp_increasing.
  - rewrite exp_0. apply Rle_refl.
Qed.

End AbsorptionValues.

(** X13. Whether an absorption evaluation returns depends on the
    instance alone, not on the grid or on [NH]: it returns exactly when
    both columns are bound, equally long and not empty. *)
Theorem X13_evaluate_returns_iff_table_usable (x : array) (NH : R)
  (w : World) :
  ((exists r : array, fst (PhAbs.evaluate x NH w) = Ok r)
   <-> table_usable w) /\
  ((exists r : array, fst (TbAbs.evaluate x NH w) = Ok r)
   <-> table_usable w).
Proof.
  assert (H : (exists r : array, fst (PhAbs.evaluate x NH w) = Ok r)
              <-> table_usable w).
  { rewrite PhAbs_evaluate_outcome. cbn [fst]. unfold table_usable. split.
    - intros [r Hr].
      destruct (xsect_ene (self w)) as [| |ene]; try discriminate.
      destruct (xsect_val (self w)) as [| |val]; try discriminate.
      exists ene, val. split; [reflexivity|]. split; [reflexivity|].
      destruct (Z.eq_dec (np.len ene) 0) as [H0|H0].
      + rewrite interp_unusable in Hr by now left. discriminate.
      + destruct (Z.eq_dec (np.len val) (np.len ene)) as [Hl|Hl].
        * pose proof (len_nonneg ene). split; [lia|assumption].
        * rewrite interp_unusable in Hr by now right. discriminate.
    - intros (ene & val & He & Hv & Hn & Hl). rewrite He, Hv.
      unfold np.interp.
      destruct (Z.eqb_spec (np.len ene) 0); [lia|].
      rewrite Hl, Z.eqb_refl. cbn [negb]. eexists. reflexivity. }
  split; exact H.
Qed.

(** X14. What an absorption evaluation raises, always with the world
    as it was: AttributeError when [init_xsect] was never called,
    AssertionError when [xsect_ene] is [None] (whatever [xsect_val] is)
    or [xsect_val] is [None], and ValueError from the interpolation when
    the table is empty or its columns differ in length. *)
Theorem X14_evaluate_errors (x : array) (NH : R) (w : World) :
  (xsect_ene (self w) = Absent ->
   PhAbs.evaluate x NH w = (Err AttributeError, w) /\
   TbAbs.evaluate x NH w = (Err AttributeError, w)) /\
  (xsect_ene (self w) = PyNone ->
   PhAbs.evaluate x NH w = (Err AssertionError, w) /\
   TbAbs.evaluate x NH w = (Err AssertionError, w)) /\
  (forall ene : array,
     xsect_ene (self w) = Value ene -> xsect_val (self w) = Absent ->
     PhAbs.evaluate x NH w = (Err AttributeError, w) /\
     TbAbs.evaluate x NH w = (Err AttributeError, w)) /\
  (forall ene : array,
     xsect_ene (self w) = Value ene -> xsect_val (self w) = PyNone ->
     PhAbs.evaluate x NH w = (Err AssertionError, w) /\
     TbAbs.evaluate x NH w = (Err AssertionError, w)) /\
  (forall ene val : array,
     xsect_ene (self w) = Value ene -> xsect_val (self w) = Value val ->
     np.len ene = 0%Z \/ np.len val <> np.len ene ->
     PhAbs.evaluate x NH w = (Err ValueError, w) /\
     TbAbs.evaluate x NH w = (Err ValueError, w)).
Proof.
  change (TbAbs.evaluate x NH w) with (PhAbs.evaluate x NH w).
  rewrite PhAbs_evaluate_outcome.
  split; [|split; [|split; [|split]]].
  - intros ->. now split.
  - intros ->. now split.
  - intros ene -> ->. now split.
  - intros ene -> ->. now split.
  - intros ene val -> -> H. rewrite interp_unusable by assumption.
    now split.
Qed.

Lemma X14_evaluate_errors_witness :
  PhAbs.evaluate Sample.x 1 Edge.blank = (Err AttributeError, Edge.blank) /\
  PhAbs.evaluate Sample.x 1
    (mkWorld (mkInstance Absent (Value []) (Value [])) [])
  = (Err ValueError, mkWorld (mkInstance Absent (Value []) (Value [])) []).
Proof.
  split.
  - destruct (X14_evaluate_errors Sample.x 1 Edge.blank) as (H & _).
    apply H. reflexivity.
  - destruct (X14_evaluate_errors Sample.x 1
                (mkWorld (mkInstance Absent (Value []) (Value [])) []))
      as (_ & _ & _ & _ & H).
    apply (H [] []); try reflexivity. left. reflexivity.
Defined.

(** X15. Read in exact real arithmetic, with an increasing table of
    non-negative cross sections and [NH >= 0], an absorption evaluation
    returns one value per grid point (none for an empty grid), each
    between 0 and 1, both included. *)
Theorem X15_transmission_between_0_and_1 (x : array) (NH : R) (w : World)
  (ene val : array) :
  xsect_ene (self w) = Value ene ->
  xsect_val (self w) = Value val ->
  (1 <= np.len ene)%Z ->
  np.len val = np.len ene ->
  increasing ene ->
  nonneg val ->
  0 <= NH ->
  exists r : array,
    PhAbs.evaluate x NH w = (Ok r, w) /\
    TbAbs.evaluate x NH w = (Ok r, w) /\
    np.len r = np.len x /\
    transmission r.
Proof.
  intros He Hv Hn Hl Hinc Hpos HNH.
  exists (map (fun xi => exp (- NH * np.interp1 xi ene val)) x).
  split; [now apply PhAbs_evaluate_loaded|].
  split; [now apply (PhAbs_evaluate_loaded x NH w ene val)|].
  split; [unfold np.len; now rewrite length_map|].
  intros i Hi. unfold np.len in Hi. rewrite length_map in Hi.
  rewrite map_at by (unfold np.len; lia).
  pose proof (interp1_lower 0 x.[i] ene val Hinc Hn Hl Hpos) as Hs.
  split; [apply Rlt_le, exp_pos|]. apply exp_nonpos_le_one. nra.
Qed.

Lemma sample_sigma_nonneg : nonneg [8; 6; 2].
Proof.
  intros i Hi. unfold np.len in Hi. cbn [length] in Hi.
  assert (H : i = 0%Z \/ i = 1%Z \/ i = 2%Z) by lia.
  destruct H as [-> | [-> | ->]]; unfold at_; simpl; lra.
Defined.

Lemma X15_transmission_between_0_and_1_witness :
  exists r : array,
    PhAbs.evaluate Sample.x 3 Sample.w = (Ok r, Sample.w) /\
    np.len r = 3%Z /\
    transmission r.
Proof.
  destruct (X15_transmission_between_0_and_1 Sample.x 3 Sample.w
              [1; 2; 4] [8; 6; 2]) as (r & HP & _ & Hlen & Ht).
  - reflexivity.
  - reflexivity.
  - unfold np.len. simpl. lia.
  - reflexivity.
  - exact sample_table_increasing.
  - exact sample_sigma_nonneg.
  - lra.
  - exists r. split; [exact HP|]. split; [exact Hlen|exact Ht].
Defined.

(** X16. Column densities add: with a usable table, the evaluation at
    [NH1 + NH2] is the elementwise product of the evaluations at [NH1]
    and at [NH2]. *)
Theorem X16_column_densities_add (x : array) (NH1 NH2 : R) (w : World) :
  table_usable w ->
  exists r1 r2 : array,
    PhAbs.evaluate x NH1 w = (Ok r1, w) /\
    PhAbs.evaluate x NH2 w = (Ok r2, w) /\
    PhAbs.evaluate x (NH1 + NH2) w = (Ok (np.zip_with Rmult r1 r2), w) /\
    TbAbs.evaluate x (NH1 + NH2) w = (Ok (np.zip_with Rmult r1 r2), w).
Proof.
  intros (ene & val & He & Hv & Hn & Hl).
  exists (map (fun xi => exp (- NH1 * np.interp1 xi ene val)) x),
         (map (fun xi => exp (- NH2 * np.interp1 xi ene val)) x).
  split; [now apply PhAbs_evaluate_loaded|].
  split; [now apply PhAbs_evaluate_loaded|].
  assert (H : map (fun xi => exp (- (NH1 + NH2) * np.interp1 xi ene val)) x
              = np.zip_with Rmult
                  (map (fun xi => exp (- NH1 * np.interp1 xi ene val)) x)
                  (map (fun xi => exp (- NH2 * np.interp1 xi ene val)) x)).
  { induction x as [|v x IH]; [reflexivity|].
    cbn [map np.zip_with]. rewrite <- IH, <- exp_plus. do 2 f_equal. ring. }
  rewrite <- H.
  split; [now apply PhAbs_evaluate_loaded|].
  now apply (PhAbs_evaluate_loaded x (NH1 + NH2) w ene val).
Qed.

Lemma X16_column_densities_add_witness :
  exists r1 r2 : array,
    PhAbs.evaluate Sample.x 1 Sample.w = (Ok r1, Sample.w) /\
    PhAbs.evaluate Sample.x 2 Sample.w = (Ok r2, Sample.w) /\
    PhAbs.evaluate Sample.x (1 + 2) Sample.w
    = (Ok (np.zip_with Rmult r1 r2), Sample.w).
Proof.
  destruct (X16_column_densities_add Sample.x 1 2 Sample.w)
    as (r1 & r2 & H1 & H2 & H3 & _).
  - exists [1; 2; 4], [8; 6; 2]. repeat split. unfold np.len. simpl. lia.
  - exists r1, r2. split; [exact H1|]. split; [exact H2|exact H3].
Defined.

(** X17. Evaluating at the energies of the table gives back the table:
    with an increasing table, the evaluation on [x = xsect_ene] returns
    [exp(-NH * xsect_val)] elementwise, no interpolation error added. *)
Theorem X17_table_energies_give_table_values (NH : R) (w : World)
  (ene val : array) :
  xsect_ene (self w) = Value ene ->
  xsect_val (self w) = Value val ->
  (1 <= np.len ene)%Z ->
  np.len val = np.len ene ->
  increasing ene ->
  PhAbs.evaluate ene NH w = (Ok (map (fun s => exp (- NH * s)) val), w) /\
  TbAbs.evaluate ene NH w = (Ok (map (fun s => exp (- NH * s)) val), w).
Proof.
  intros He Hv Hn Hl Hinc.
  change (TbAbs.evaluate ene NH w) with (PhAbs.evaluate ene NH w).
  rewrite (PhAbs_evaluate_loaded ene NH w ene val He Hv Hn Hl).
  assert (H : map (fun xi => exp (- NH * np.interp1 xi ene val)) ene
              = map (fun s => exp (- NH * s)) val).
  { transitivity (map (fun s => exp (- NH * s))
                    (map (fun xi => np.interp1 xi ene val) ene)).
    - now rewrite map_map.
    - now rewrite interp_nodes. }
  rewrite H. now split.
Qed.

Lemma X17_table_energies_give_table_values_witness :
  PhAbs.evaluate [1; 2; 4] 1 Sample.w
  = (Ok (map (fun s => exp (- 1 * s)) [8; 6; 2]), Sample.w).
Proof.
  apply (X17_table_energies_give_table_values 1 Sample.w [1; 2; 4] [8; 6; 2]).
  - reflexivity.
  - reflexivity.
  - unfold np.len. simpl. lia.
  - reflexivity.
  - exact sample_table_increasing.
Defined.

Lemma X13_evaluate_returns_iff_table_usable_witness :
  (exists r : array, fst (PhAbs.evaluate Sample.x 1 Sample.w) = Ok r) /\
  ~ (exists r : array, fst (TbAbs.evaluate Sample.x 1 Edge.blank) = Ok r).
Proof.
  split.
  - apply (X13_evaluate_returns_iff_table_usable Sample.x 1 Sample.w).
    exists [1; 2; 4], [8; 6; 2]. repeat split. unfold np.len. simpl. lia.
  - intros H.
    apply (X13_evaluate_returns_iff_table_usable Sample.x 1 Edge.blank) in H.
    destruct H as (ene & val & He & _). discriminate.
Defined.
